(** * CTAPred: the three command-line scripts

    A shallow embedding of [generate_CTA.py], [predict_targets.py] and
    [update_chembl_np.py].  The scripts are glue around [SharedFunc], pandas
    and argparse: they parse options into an [argparse.Namespace], adjust a
    few of its attributes, and drive the helpers of [SharedFunc] over data
    frames and files.  The embedding keeps that shape:

    - a [Namespace] is a finite map from attribute names to Python values,
      so that a missing attribute is a missing key;
    - a script is a computation in a state-and-exception monad over a
      [world]: the paths that exist, the store of data-frame objects and the
      trace of calls and prints made so far;
    - a pandas [DataFrame] is a list of column names over rows of nullable
      cells, with the handful of operations the scripts use. *)

From Stdlib Require Import ZArith QArith Qcanon List Ascii String Lia.
From stdpp Require Import gmap strings list fin_maps.

(* ===================================================================== *)
(** ** Python values and namespaces *)
(* ===================================================================== *)

#[warnings="-register-all"]
Inductive value :=
| VNone
| VBool (b : bool)
| VInt (z : Z)
| VFloat (q : Qc)
| VStr (s : string)
| VList (vs : list value).

(** Python's [==] on the values above. *)
Fixpoint value_eqb (a b : value) {struct a} : bool :=
  match a, b with
  | VNone, VNone => true
  | VBool x, VBool y => Bool.eqb x y
  | VInt x, VInt y => Z.eqb x y
  | VFloat x, VFloat y => bool_decide (x = y)
  | VInt x, VFloat y | VFloat y, VInt x => bool_decide (Q2Qc (inject_Z x) = y)
  | VStr x, VStr y => String.eqb x y
  | VList xs, VList ys =>
      (fix all2 (xs ys : list value) : bool :=
         match xs, ys with
         | [], [] => true
         | x :: xs', y :: ys' => value_eqb x y && all2 xs' ys'
         | _, _ => false
         end) xs ys
  | _, _ => false
  end.

(** [v in vs] *)
Definition py_in (v : value) (vs : list value) : bool := existsb (value_eqb v) vs.

(** Truth value of an object in an [if]. *)
Definition truthy (v : value) : bool :=
  match v with
  | VNone => false
  | VBool b => b
  | VInt z => negb (Z.eqb z 0)
  | VFloat q => negb (bool_decide (q = Q2Qc 0))
  | VStr s => negb (String.eqb s "")
  | VList vs => match vs with [] => false | _ => true end
  end.

(** [argparse.Namespace]: attribute name to value. *)
Abbreviation Namespace := (gmap string value).

(* ===================================================================== *)
(** ** Exceptions and exit status *)
(* ===================================================================== *)

(** A word of the command line: its text, and what Python's numeric
    constructors make of it ([int] accepts only [DInt]; [float] accepts
    [DInt] and [DDec]). *)
Inductive denotation := DInt (z : Z) | DDec (q : Qc) | DText.
Record word := Word { text : string; reads_as : denotation }.

(** The messages of [parser.error]. *)
Inductive parse_error :=
| InvalidValue (flag : string) (w : word)
| InvalidChoice (flag : string) (v : value)
| ExpectedOneArgument (flag : string)
| UnrecognizedArguments (extras : list string).

Inductive exn :=
| ArgparseError (e : parse_error)      (* usage and message on stderr, [sys.exit(2)] *)
| SystemExit                           (* [exit()] *)
| AttributeError (attr : string)
| KeyError (column : string)
| NameError (variable : string)
| TypeError (what : string).



(* ===================================================================== *)
(** ** argparse, as far as the scripts use it

    The command line is taken after splitting into option occurrences: an
    option string and the words that follow it up to the next option
    string.  Abbreviated options, [--opt=value] and the built-in help
    option belong to argparse and are left out. *)
(* ===================================================================== *)

Inductive action := Store | StoreTrue.
Inductive arity := One | Star.        (* [nargs] absent, [nargs='*'] *)

Record argument := Argument {
  flag : string;
  dest : string;
  action_ : action;
  type_ : word -> option value;
  nargs : arity;
  default : value;
  choices : option (list value)
}.

Definition py_str (w : word) : option value := Some (VStr (text w)).

Definition py_int (w : word) : option value :=
  match reads_as w with
  | DInt z => Some (VInt z)
  | _ => None
  end.

Definition py_float (w : word) : option value :=
  match reads_as w with
  | DInt z => Some (VFloat (Q2Qc (inject_Z z)))
  | DDec q => Some (VFloat q)
  | DText => None
  end.

Definition find_argument (specs : list argument) (f : string) : option argument :=
  List.find (fun a => String.eqb (flag a) f) specs.

(** One word through [type=] and [choices=]. *)
Definition convert (a : argument) (w : word) : parse_error + value :=
  match type_ a w with
  | None => inl (InvalidValue (flag a) w)
  | Some v =>
      match choices a with
      | None => inr v
      | Some cs => if py_in v cs then inr v else inl (InvalidChoice (flag a) v)
      end
  end.

Fixpoint convert_all (a : argument) (ws : list word) : parse_error + list value :=
  match ws with
  | [] => inr []
  | w :: ws' =>
      match convert a w with
      | inl e => inl e
      | inr v =>
          match convert_all a ws' with
          | inl e => inl e
          | inr vs => inr (v :: vs)
          end
      end
  end.

(** Every destination starts at its default. *)
Definition defaults (specs : list argument) : Namespace :=
  foldr (fun a ns => <[dest a := default a]> ns) ∅ specs.

(** One option occurrence.  Words that no option takes, and option strings
    that were never declared, are collected and reported at the end. *)
Definition consume (specs : list argument) (st : Namespace * list string)
    (item : string * list word) : parse_error + (Namespace * list string) :=
  let '(ns, extras) := st in
  let '(f, ws) := item in
  match find_argument specs f with
  | None => inr (ns, extras ++ f :: map text ws)
  | Some a =>
      match action_ a with
      | StoreTrue => inr (<[dest a := VBool true]> ns, extras ++ map text ws)
      | Store =>
          match nargs a with
          | One =>
              match ws with
              | [] => inl (ExpectedOneArgument f)
              | w :: rest =>
                  match convert a w with
                  | inl e => inl e
                  | inr v => inr (<[dest a := v]> ns, extras ++ map text rest)
                  end
              end
          | Star =>
              match convert_all a ws with
              | inl e => inl e
              | inr vs => inr (<[dest a := VList vs]> ns, extras)
              end
          end
      end
  end.

Fixpoint consume_all (specs : list argument) (st : Namespace * list string)
    (argv : list (string * list word)) : parse_error + (Namespace * list string) :=
  match argv with
  | [] => inr st
  | item :: argv' =>
      match consume specs st item with
      | inl e => inl e
      | inr st' => consume_all specs st' argv'
      end
  end.

(** [parser.parse_args()] *)
Definition parse (specs : list argument) (argv : list (string * list word)) : exn + Namespace :=
  match consume_all specs (defaults specs, []) argv with
  | inl e => inl (ArgparseError e)
  | inr (ns, []) => inr ns
  | inr (_, extras) => inl (ArgparseError (UnrecognizedArguments extras))
  end.

(* ===================================================================== *)
(** ** SharedFunc: the range checkers used as argparse types *)
(* ===================================================================== *)

(** Modelled from the spec: [int_range] of [SharedFunc], which is not among
    the sources.  The spec gives the recognised range of [nBits] as
    [[8,2048]] and has an out-of-range value rejected at the boundary; the
    checker reads an integer and accepts it when it lies in the closed
    range. *)
Definition int_range (lo hi : Z) (w : word) : option value :=
  match reads_as w with
  | DInt z => if bool_decide (lo <= z <= hi)%Z then Some (VInt z) else None
  | _ => None
  end.

(** Modelled from the spec: [float_range] of [SharedFunc], likewise absent;
    the closed ranges are [[0.01,10000]] for the activity threshold and
    [[0.1,1.0]] for Tc. *)
Definition float_range (lo hi : Qc) (w : word) : option value :=
  match py_float w with
  | Some (VFloat q) =>
      if bool_decide (lo <= q)%Qc && bool_decide (q <= hi)%Qc then Some (VFloat q) else None
  | _ => None
  end.

(* ===================================================================== *)
(** ** pandas data frames, as far as [predict_targets.py] uses them *)
(* ===================================================================== *)

(** What a cell can hold; a fingerprint is its bit vector. *)
Inductive datum :=
| CInt (z : Z)
| CFloat (q : Qc)
| CStr (s : string)
| CBits (bits : list bool).

#[global] Instance datum_eq_dec : EqDecision datum.
Proof. solve_decision. Defined.

(** A cell is a datum or null ([NaN]/[None]). *)
Abbreviation cell := (option datum).
Abbreviation row := (list cell).

Record DataFrame := Frame { columns : list string; rows : list row }.

Fixpoint index_of (c : string) (cs : list string) : option nat :=
  match cs with
  | [] => None
  | c' :: cs' => if String.eqb c' c then Some O else S <$> index_of c cs'
  end.

Fixpoint indices_of (wanted : list string) (cs : list string) : exn + list nat :=
  match wanted with
  | [] => inr []
  | c :: wanted' =>
      match index_of c cs with
      | None => inl (KeyError c)
      | Some i =>
          match indices_of wanted' cs with
          | inl e => inl e
          | inr ixs => inr (i :: ixs)
          end
      end
  end.

Definition cell_at (r : row) (i : nat) : cell := nth i r None.

(** [df[[c1, ..., cn]]]: a new frame with the named columns. *)
Definition getitem (wanted : list string) (df : DataFrame) : exn + DataFrame :=
  match indices_of wanted (columns df) with
  | inl e => inl e
  | inr ixs => inr (Frame wanted (map (fun r => map (cell_at r) ixs) (rows df)))
  end.

(** Rows in order, each kept the first time it is seen. *)
Fixpoint keep_first (seen : list row) (rs : list row) : list row :=
  match rs with
  | [] => []
  | r :: rs' =>
      if bool_decide (r ∈ seen) then keep_first seen rs'
      else r :: keep_first (r :: seen) rs'
  end.

(** [df.drop_duplicates(ignore_index=True)] *)
Definition drop_duplicates (df : DataFrame) : DataFrame :=
  Frame (columns df) (keep_first [] (rows df)).

(** A row has no null when its cell in every column holds a datum. *)
Definition no_null (width : nat) (r : row) : bool :=
  forallb (fun i => bool_decide (is_Some (cell_at r i))) (seq 0 width).

(** [df.dropna()]: the rows without a null in any column. *)
Definition dropna (df : DataFrame) : DataFrame :=
  Frame (columns df) (List.filter (no_null (length (columns df))) (rows df)).

Fixpoint remove_nth {A} (i : nat) (l : list A) : list A :=
  match l, i with
  | [], _ => []
  | _ :: l', O => l'
  | x :: l', S i' => x :: remove_nth i' l'
  end.

(** Column names of a merge: a name on both sides outside the key gets the
    suffix of its side. *)
Definition suffixed (sfx : string) (key : string) (others : list string) (c : string) : string :=
  if String.eqb c key then c
  else if bool_decide (c ∈ others) then c +:+ sfx else c.

(** [pd.merge(left, right, on=key, how='inner')]: for every left row, in
    order, the right rows with the same key, in order. *)
Definition merge (left right : DataFrame) (key : string) : exn + DataFrame :=
  match index_of key (columns left), index_of key (columns right) with
  | Some li, Some ri =>
      inr (Frame
             (map (suffixed "_x" key (columns right)) (columns left)
              ++ map (suffixed "_y" key (columns left)) (remove_nth ri (columns right)))
             (l ← rows left;
              r ← rows right;
              if bool_decide (cell_at l li = cell_at r ri) then [l ++ remove_nth ri r] else []))
  | _, _ => inl (KeyError key)
  end.

(** [df.rename(columns={old: new})] *)
Definition rename (old new : string) (df : DataFrame) : DataFrame :=
  Frame (map (fun c => if String.eqb c old then new else c) (columns df)) (rows df).

(** [len(df)] *)
Definition len (df : DataFrame) : nat := length (rows df).

(* ===================================================================== *)
(** ** The world a script runs in *)
(* ===================================================================== *)

(** [Log] is the [Tee] of standard output and the log file. *)
Inductive stream := Stdout | Log.

Inductive event :=
| Makedirs (path : string)
| OpenAppend (path : string)
| CloseLog
| Print (to : stream) (msg : string)
| PrintArgv (to : stream)
| PrintTime (to : stream) (label : string)      (* the label, then [tstamp()] *)
| ReadCsv (path : string)
| GcCollect
(* calls into SharedFunc, with the arguments as they are at the call *)
| Call_createCTA (args : Namespace) (output_dir : string)
| Call_initialize_CTA_files (output_dir : string)
| Call_set_ChEMBL_as_first_option_in_CTA_table (output_dir : string)
| Call_refine_NPs_data (NPs_dataPath destinationPath verbose : value)
| Call_assert_query_resource_files (args : Namespace)
| Call_select_CTA_reference_dataset (args : Namespace)
| Call_gen_fps (args : Namespace) (structures : DataFrame) (kind : string)
| Call_preprocess_Query_SMILES (args : Namespace) (query_list : DataFrame)
| Call_Query_conductSS (args : Namespace) (query reference : DataFrame)
| Call_rankTargets (args : Namespace) (similarity : DataFrame) (path : string).

(** Paths that exist, data-frame objects by identity, and what the script
    has done so far. *)
Record world := World {
  fs : gset string;
  heap : gmap nat DataFrame;
  trace : list event
}.

(** A script step: it changes the world and returns or raises. *)
Definition M (A : Type) : Type := world -> world * (exn + A).

Definition ret {A} (a : A) : M A := fun w => (w, inr a).

Definition raise {A} (e : exn) : M A := fun w => (w, inl e).

Definition bind {A B} (m : M A) (k : A -> M B) : M B :=
  fun w =>
    match m w with
    | (w', inl e) => (w', inl e)
    | (w', inr a) => k a w'
    end.

Declare Scope script_scope.
Delimit Scope script_scope with script.
Notation "x <- m ;; k" := (bind m (fun x => k))
  (at level 100, m at next level, right associativity) : script_scope.
Notation "m ;;; k" := (bind m (fun _ => k))
  (at level 100, right associativity) : script_scope.
Local Open Scope script_scope.

Definition lift {A} (r : exn + A) : M A :=
  match r with
  | inl e => raise e
  | inr a => ret a
  end.

Definition emit (e : event) : M unit :=
  fun w => (World (fs w) (heap w) (trace w ++ [e]), inr tt).

Definition print (to : stream) (msg : string) : M unit := emit (Print to msg).

(** [getattr]: a namespace without the attribute raises. *)
Definition getattr (ns : Namespace) (attr : string) : M value :=
  match ns !! attr with
  | Some v => ret v
  | None => raise (AttributeError attr)
  end.

(** A value used where the [os] functions want a path. *)
Definition as_path (v : value) : M string :=
  match v with
  | VStr s => ret s
  | _ => raise (TypeError "expected str, bytes or os.PathLike object")
  end.

(** [os.path.join] of two components: an absolute second component stands
    alone, and the separator is added unless the first is empty or ends
    with one. *)
Fixpoint ends_with_slash (s : string) : bool :=
  match s with
  | EmptyString => false
  | String c EmptyString => Ascii.eqb c "/"
  | String _ s' => ends_with_slash s'
  end.

Definition separator (dir : string) : string :=
  if String.eqb dir "" || ends_with_slash dir then "" else "/".

Definition join (dir name : string) : string :=
  match name with
  | String "/" _ => name
  | _ => dir +:+ separator dir +:+ name
  end.

(** [os.path.exists] *)
Definition path_exists (p : string) : M bool :=
  fun w => (w, inr (bool_decide (p ∈ fs w))).

(** The paths that exist, for a helper that looks for its files. *)
Definition current_files : M (gset string) :=
  fun w => (w, inr (fs w)).

(** [os.makedirs] *)
Definition makedirs (p : string) : M unit :=
  fun w => (World ({[p]} ∪ fs w) (heap w) (trace w ++ [Makedirs p]), inr tt).

(** [open(p, 'a')]: the file exists from then on. *)
Definition open_append (p : string) : M unit :=
  fun w => (World ({[p]} ∪ fs w) (heap w) (trace w ++ [OpenAppend p]), inr tt).

(** A new object. *)
Definition alloc (df : DataFrame) : M nat :=
  fun w =>
    let l := fresh (dom (heap w)) in
    (World (fs w) (<[l := df]> (heap w)) (trace w), inr l).

(** The frame a variable refers to. *)
Definition load (var : string) (l : nat) : M DataFrame :=
  fun w =>
    match heap w !! l with
    | Some df => (w, inr df)
    | None => (w, inl (NameError var))
    end.

(** A method with [inplace=True]: the object itself changes. *)
Definition inplace (f : DataFrame -> DataFrame) (l : nat) : M unit :=
  fun w => (World (fs w) (alter f l (heap w)) (trace w), inr tt).

(** [del] *)
Definition del (l : nat) : M unit :=
  fun w => (World (fs w) (delete l (heap w)) (trace w), inr tt).

(** A method that builds a new frame from the one at [l]. *)
Definition derive (var : string) (f : DataFrame -> exn + DataFrame) (l : nat) : M nat :=
  df <- load var l ;;
  df' <- lift (f df) ;;
  alloc df'.

(** What a helper of [SharedFunc] does with the frame it is handed: it may
    change that object in place, and it returns either a new object or the
    very object it was given. *)
Inductive returned := New (df : DataFrame) | Same.
Record outcome := Outcome { arg_after : DataFrame; returns : returned }.

Definition call (var : string) (ev : DataFrame -> event) (f : DataFrame -> outcome)
    (l : nat) : M nat :=
  df <- load var l ;;
  emit (ev df) ;;;
  inplace (fun _ => arg_after (f df)) l ;;;
  match returns (f df) with
  | New df' => alloc df'
  | Same => ret l
  end.

(** The frame a helper's caller holds afterwards. *)
Definition result_value (o : outcome) : DataFrame :=
  match returns o with
  | New df' => df'
  | Same => arg_after o
  end.


Definition initial (files : gset string) : world := World files ∅ [].

(** Decimal literals and the newline of the messages. *)
Definition dec (n : Z) (d : positive) : Qc := Q2Qc (n # d).
Definition nl : string := String (Ascii.ascii_of_nat 10) EmptyString.

Definition fingerprint_choices : list value :=
  [VStr "avalon"; VStr "ecfp"; VStr "fcfp"; VStr "maccs"].

(* ===================================================================== *)
(** ** generate_CTA.py *)
(* ===================================================================== *)

Module GenerateCTA.

(** The [add_argument] calls of [parse_args], in order. *)
Definition arguments : list argument :=
  [ Argument "--sv" "standard_value" Store (float_range (dec 1 100) (dec 10000 1)) One
      (VInt 10000) None;
    Argument "--Tc" "Tc" Store (float_range (dec 1 10) (dec 1 1)) One
      (VFloat (dec 80 100)) None;
    Argument "--fingerprint" "fingerprint" Store py_str One
      (VStr "maccs") (Some fingerprint_choices);
    Argument "--nBits" "nBits" Store (int_range 8 2048) One (VInt 2048) None;
    Argument "--radius" "radius" Store py_int One (VInt 2) (Some [VInt 2; VInt 3]);
    Argument "--verbose" "verbose" StoreTrue py_str One (VBool false) None;
    Argument "--n_jobs" "n_jobs" Store py_int One (VInt (-1)) None;
    Argument "--output" "outputPath" Store py_str One (VStr "output") None ].

Definition parse_args (argv : list (string * list word)) : exn + Namespace :=
  parse arguments argv.

Definition main (argv : list (string * list word)) : M unit :=
  (* get inputs *)
  args <- lift (parse_args argv) ;;
  (* create a folder to save the results if it doesn't exist *)
  outputPath <- (v <- getattr args "outputPath" ;; as_path v) ;;
  there <- path_exists outputPath ;;
  (if negb there then makedirs outputPath else ret tt) ;;;
  (* begin log *)
  open_append (join outputPath "generate_CTA_log.txt") ;;;
  print Log nl ;;;
  emit (PrintArgv Log) ;;;
  emit (PrintTime Log "Start time: ") ;;;
  (* ensure directory exists *)
  let output_dir := join outputPath "CTA_datasets/" in
  makedirs output_dir ;;;
  (* the 'radius' and nBits fields follow the fingerprint type *)
  fingerprint <- getattr args "fingerprint" ;;
  let args :=
    if py_in fingerprint [VStr "avalon"; VStr "maccs"] then
      let args := <["radius" := VNone]> args in
      if value_eqb fingerprint (VStr "maccs") then <["nBits" := VInt 116]> args else args
    else args in
  emit (Call_createCTA args output_dir) ;;;
  emit (PrintTime Log (nl +:+ "Finish time: ")) ;;;
  emit CloseLog.

End GenerateCTA.

(* ===================================================================== *)
(** ** update_chembl_np.py *)
(* ===================================================================== *)

Module UpdateChemblNp.

Definition arguments : list argument :=
  [ Argument "--ChEMBL_data" "ChEMBL_dataPath" Store py_str One VNone None;
    Argument "--NPs_data" "NPs_dataPath" Store py_str One VNone None;
    Argument "--ChEMBL" "ChEMBL" StoreTrue py_str One (VBool false) None;
    Argument "--NPs" "NPs" StoreTrue py_str One (VBool false) None;
    Argument "--destination" "destinationPath" Store py_str One (VStr "Data") None ].

Definition parse_args (argv : list (string * list word)) : exn + Namespace :=
  parse arguments argv.

(** The body under [if __name__ == "__main__"]. *)
Definition main (argv : list (string * list word)) : M unit :=
  args <- lift (parse_args argv) ;;
  (* create the destination folder if it does not exist *)
  destinationPath <- (v <- getattr args "destinationPath" ;; as_path v) ;;
  makedirs destinationPath ;;;
  (* begin logging *)
  open_append (join destinationPath "update_chembl_np_log.txt") ;;;
  print Log nl ;;;
  emit (PrintArgv Log) ;;;
  emit (PrintTime Log "Start time: ") ;;;
  (* the output directory for refined ChEMBL data *)
  let output_dir := join destinationPath "refined_chembl" in
  makedirs output_dir ;;;
  (* create CTA_meta and CTA_data unless CTA_meta exists *)
  let parquet_meta_path := join output_dir "CTA_meta.parquet" in
  there <- path_exists parquet_meta_path ;;
  (if negb there then emit (Call_initialize_CTA_files output_dir) else ret tt) ;;;
  (* ChEMBL *)
  ChEMBL <- getattr args "ChEMBL" ;;
  (if truthy ChEMBL then
     ChEMBL_dataPath <- getattr args "ChEMBL_dataPath" ;;
     if truthy ChEMBL_dataPath
     then emit (Call_set_ChEMBL_as_first_option_in_CTA_table output_dir)
     else print Stdout
            "Please provide the full file path of the ChEMBL SQLite file using the --ChEMBL_data option."
   else ret tt) ;;;
  (* NPs *)
  NPs <- getattr args "NPs" ;;
  (if truthy NPs then
     NPs_dataPath <- getattr args "NPs_dataPath" ;;
     if truthy NPs_dataPath
     then
       a1 <- getattr args "NPs_dataPath" ;;
       a2 <- getattr args "destinationPath" ;;
       a3 <- getattr args "verbose" ;;
       emit (Call_refine_NPs_data a1 a2 a3)
     else print Stdout
            "Please provide the CSV file with the latest NPs data using the --NPs_data option."
   else ret tt) ;;;
  emit (PrintTime Log "End time: ").

End UpdateChemblNp.

(* ===================================================================== *)
(** ** predict_targets.py *)
(* ===================================================================== *)

Module PredictTargets.

Definition arguments : list argument :=
  [ Argument "--fingerprint" "fingerprint" Store py_str One
      (VStr "ecfp") (Some fingerprint_choices);
    Argument "--nBits" "nBits" Store (int_range 8 2048) One (VInt 2048) None;
    Argument "--radius" "radius" Store py_int One (VInt 2) (Some [VInt 2; VInt 3]);
    Argument "--k" "top_k" Store py_int Star (VInt 1) None;
    Argument "--n_jobs" "n_jobs" Store py_int One (VInt (-1)) None;
    Argument "--verbose" "verbose" StoreTrue py_str One (VBool false) None;
    Argument "--input" "inputPath" Store py_str One (VStr "input") None;
    Argument "--output" "outputPath" Store py_str One (VStr "output") None ].

Definition parse_args (argv : list (string * list word)) : exn + Namespace :=
  parse arguments argv.

(** The names a loop runs over. *)
Fixpoint as_names (vs : list value) : M (list string) :=
  match vs with
  | [] => ret []
  | VStr s :: vs' => ss <- as_names vs' ;; ret (s :: ss)
  | _ :: _ => raise (TypeError "unsupported operand type(s) for +")
  end.

Definition iterate (v : value) : M (list string) :=
  match v with
  | VList vs => as_names vs
  | _ => raise (TypeError "object is not iterable")
  end.

Inductive flow := Continue | Break.

(** The heading of a query set in the log. *)
Definition banner (db_name : string) : string :=
  nl +:+ "==================" +:+ nl +:+ "Data set: " +:+ db_name +:+ nl
  +:+ "==================" +:+ nl.

Definition reference_columns : list string :=
  ["molregno"; "clean_smiles"; "uniprot"; "target_chembl_id"].

Definition search_columns : list string :=
  ["molregno"; "target_chembl_id"; "uniprot"; "fp"].

Section SharedFunc.

(** The helpers of [SharedFunc], which is not among the sources; what
    they compute is left open.  [assert_query_resource_files] answers
    [False], or answers [True] after setting [args.datNames], which
    [parse_args] never defines and [main] reads.  A helper that is handed
    a frame that [main] keeps a name for is an [outcome]; the search is
    handed two frames nobody else holds, and only its result counts. *)
Variable assert_query_resource_files : gset string -> Namespace -> option (list string).
Variable select_CTA_reference_dataset : Namespace -> DataFrame * string.
Variable gen_fps : Namespace -> DataFrame -> string -> outcome.
Variable preprocess_Query_SMILES : Namespace -> DataFrame -> outcome.
Variable Query_conductSS : Namespace -> DataFrame -> DataFrame -> DataFrame.
(** [pd.read_csv]: the frame a file holds. *)
Variable read_csv : string -> DataFrame.

(** Lines 91-97 of [main]: the reference table and its fingerprints. *)
Definition reference_table (args : Namespace) : M (nat * string) :=
  emit (Call_select_CTA_reference_dataset args) ;;;
  let '(selected, CTA_id) := select_CTA_reference_dataset args in
  CTA <- alloc selected ;;
  picked <- derive "CTA" (getitem reference_columns) CTA ;;
  CTA <- derive "CTA" (fun df => inr (drop_duplicates df)) picked ;;
  inplace dropna CTA ;;;
  structures <- derive "CTA" (getitem ["molregno"; "clean_smiles"]) CTA ;;
  fps <- call "CTA" (fun df => Call_gen_fps args df "Reference")
              (fun df => gen_fps args df "Reference") structures ;;
  CTA_fps <- derive "CTA_fps" (fun df => inr (drop_duplicates df)) fps ;;
  left <- load "CTA" CTA ;;
  right <- load "CTA_fps" CTA_fps ;;
  merged <- lift (merge left right "molregno") ;;
  CTA <- alloc merged ;;
  inplace dropna CTA ;;;
  ret (CTA, CTA_id).

(** Lines 102-134 of [main]: one pass of the loop over the query sets. *)
Definition pass (args : Namespace) (CTA : nat) (CTA_id : string) (db_name : string) : M flow :=
  print Log (banner db_name) ;;;
  inputPath <- (v <- getattr args "inputPath" ;; as_path v) ;;
  let smiles := join inputPath (db_name +:+ "_smiles.csv") in
  there <- path_exists smiles ;;
  if negb there then
    print Stdout ("Error, file not found " +:+ smiles) ;;;
    print Stdout ("It must be a csv file which contains smiles strings in a column named "
                  +:+ "'smiles' and compound id in a column named 'np_id'") ;;;
    ret Break
  else
    (* read the smiles file into a pandas DataFrame *)
    emit (ReadCsv smiles) ;;;
    query_list <- alloc (read_csv smiles) ;;
    clean_query_structures <-
      call "query_list" (Call_preprocess_Query_SMILES args)
           (preprocess_Query_SMILES args) query_list ;;
    inplace (rename "np_id" "molregno") clean_query_structures ;;;
    fps <- call "clean_query_structures" (fun df => Call_gen_fps args df "Query")
                (fun df => gen_fps args df "Query") clean_query_structures ;;
    query_fps <- derive "query_fps" (fun df => inr (drop_duplicates df)) fps ;;
    (* chemical similarity searches between two data sets *)
    inplace (rename "molregno" "np_id") query_fps ;;;
    query <- (df <- load "query_fps" query_fps ;; lift (getitem ["np_id"; "fp"] df)) ;;
    reference <- (df <- load "CTA" CTA ;; lift (getitem search_columns df)) ;;
    emit (Call_Query_conductSS args query reference) ;;;
    ChEMBL_similarity <- alloc (Query_conductSS args query reference) ;;
    found <- load "ChEMBL_similarity" ChEMBL_similarity ;;
    (if (0 <? len found)%nat then
       (* ensure directory exists *)
       outputPath <- (v <- getattr args "outputPath" ;; as_path v) ;;
       let output_dir := join outputPath "potential_targets/" in
       makedirs output_dir ;;;
       (* potential targets by the mean similarity of the K nearest neighbours *)
       let potential_targets_path :=
         join output_dir (db_name +:+ "_using_dataset_id_" +:+ CTA_id
                          +:+ "_include_with_k_value_of") in
       emit (Call_rankTargets args found potential_targets_path) ;;;
       del ChEMBL_similarity ;;;
       emit GcCollect
     else ret tt) ;;;
    ret Continue.

(** The [for] loop of line 101, with its [break]. *)
Fixpoint loop (args : Namespace) (CTA : nat) (CTA_id : string) (datNames : list string)
    : M unit :=
  match datNames with
  | [] => ret tt
  | db_name :: rest =>
      next <- pass args CTA CTA_id db_name ;;
      match next with
      | Break => ret tt
      | Continue => loop args CTA CTA_id rest
      end
  end.

Definition main (argv : list (string * list word)) : M unit :=
  (* get inputs *)
  args <- lift (parse_args argv) ;;
  (* create a folder to save the results if it doesn't exist *)
  outputPath <- (v <- getattr args "outputPath" ;; as_path v) ;;
  there <- path_exists outputPath ;;
  (if negb there then makedirs outputPath else ret tt) ;;;
  (* begin log *)
  open_append (join outputPath "predict_targets_log.txt") ;;;
  print Log nl ;;;
  emit (PrintArgv Log) ;;;
  emit (PrintTime Log "Start time: ") ;;;
  emit (Call_assert_query_resource_files args) ;;;
  present <- current_files ;;
  match assert_query_resource_files present args with
  | None =>
      emit (PrintTime Log (nl +:+ "Finish time: ")) ;;;
      emit CloseLog ;;;
      raise SystemExit
  | Some names =>
      let args := <["datNames" := VList (map VStr names)]> args in
      (* the 'radius' and nBits fields follow the fingerprint type *)
      fingerprint <- getattr args "fingerprint" ;;
      let args :=
        if py_in fingerprint [VStr "avalon"; VStr "maccs"] then
          let args := <["radius" := VNone]> args in
          if value_eqb fingerprint (VStr "maccs") then <["nBits" := VInt 116]> args else args
        else args in
      (* the CTA reference dataset *)
      built <- reference_table args ;;
      let '(CTA, CTA_id) := built in
      datNames <- getattr args "datNames" ;;
      print Log (nl +:+ "Start processing the Query sets:") ;;;
      names <- iterate datNames ;;
      loop args CTA CTA_id names ;;;
      emit (PrintTime Log (nl +:+ "Finish time: ")) ;;;
      emit CloseLog
  end.

(** *** The same computations over values

    What lines 91-97 and one pass of the loop compute when every frame is
    a value and no object is shared: the reading against which the
    object-level definitions above are compared. *)

Definition reference_by_value (args : Namespace) : exn + (DataFrame * string) :=
  let '(selected, CTA_id) := select_CTA_reference_dataset args in
  match getitem reference_columns selected with
  | inl e => inl e
  | inr picked =>
      let CTA := dropna (drop_duplicates picked) in
      match getitem ["molregno"; "clean_smiles"] CTA with
      | inl e => inl e
      | inr structures =>
          let CTA_fps :=
            drop_duplicates (result_value (gen_fps args structures "Reference")) in
          match merge CTA CTA_fps "molregno" with
          | inl e => inl e
          | inr merged => inr (dropna merged, CTA_id)
          end
      end
  end.

(** The report of a pass whose search found [found]. *)
Definition report_by_value (args : Namespace) (CTA_id db_name : string)
    (found : DataFrame) : list event * (exn + flow) :=
  if (0 <? len found)%nat then
    match args !! "outputPath" with
    | None => ([], inl (AttributeError "outputPath"))
    | Some (VStr outputPath) =>
        let output_dir := join outputPath "potential_targets/" in
        ([ Makedirs output_dir;
           Call_rankTargets args found
             (join output_dir (db_name +:+ "_using_dataset_id_" +:+ CTA_id
                               +:+ "_include_with_k_value_of"));
           GcCollect ],
         inr Continue)
    | Some _ => ([], inl (TypeError "expected str, bytes or os.PathLike object"))
    end
  else ([], inr Continue).

(** The search of a pass over the frame [query_list] read from the file. *)
Definition search_by_value (args : Namespace) (CTA : DataFrame) (query_list : DataFrame)
    : list event * (exn + DataFrame) :=
  let clean_query_structures :=
    rename "np_id" "molregno" (result_value (preprocess_Query_SMILES args query_list)) in
  let query_fps :=
    rename "molregno" "np_id"
      (drop_duplicates (result_value (gen_fps args clean_query_structures "Query"))) in
  let calls :=
    [ Call_preprocess_Query_SMILES args query_list;
      Call_gen_fps args clean_query_structures "Query" ] in
  match getitem ["np_id"; "fp"] query_fps with
  | inl e => (calls, inl e)
  | inr query =>
      match getitem search_columns CTA with
      | inl e => (calls, inl e)
      | inr reference =>
          (calls ++ [Call_Query_conductSS args query reference],
           inr (Query_conductSS args query reference))
      end
  end.

Definition pass_by_value (args : Namespace) (CTA : DataFrame) (CTA_id : string)
    (exist : string -> bool) (db_name : string) : list event * (exn + flow) :=
  match args !! "inputPath" with
  | None => ([Print Log (banner db_name)], inl (AttributeError "inputPath"))
  | Some (VStr inputPath) =>
      let smiles := join inputPath (db_name +:+ "_smiles.csv") in
      if negb (exist smiles) then
        ([ Print Log (banner db_name);
           Print Stdout ("Error, file not found " +:+ smiles);
           Print Stdout ("It must be a csv file which contains smiles strings in a column named "
                         +:+ "'smiles' and compound id in a column named 'np_id'") ],
         inr Break)
      else
        match search_by_value args CTA (read_csv smiles) with
        | (calls, inl e) => (Print Log (banner db_name) :: ReadCsv smiles :: calls, inl e)
        | (calls, inr found) =>
            let '(reported, r) := report_by_value args CTA_id db_name found in
            (Print Log (banner db_name) :: ReadCsv smiles :: calls ++ reported, r)
        end
  | Some _ =>
      ([Print Log (banner db_name)], inl (TypeError "expected str, bytes or os.PathLike object"))
  end.

End SharedFunc.

End PredictTargets.

(* ===================================================================== *)
(** ** SharedFunc: similarity and ranking, from the specification *)
(* ===================================================================== *)

Module Similarity.

(** A fingerprint: a bit vector of fixed length. *)
Abbreviation fingerprint := (list bool).

Definition on_bits (a : fingerprint) : nat := length (List.filter id a).

(** Bits set in both; bits set in either (a vector that has run out counts
    as unset from there on). *)
Fixpoint intersection (a b : fingerprint) : fingerprint :=
  match a, b with
  | x :: a', y :: b' => (x && y) :: intersection a' b'
  | _, _ => []
  end.

Fixpoint union (a b : fingerprint) : fingerprint :=
  match a, b with
  | x :: a', y :: b' => (x || y) :: union a' b'
  | [], _ => b
  | _, [] => a
  end.

(** Modelled from the spec: the similarity score of [SharedFunc], which is
    not among the sources.  The glossary gives the Tanimoto/Jaccard
    coefficient of two binary vectors as |intersection of set bits| /
    |union of set bits|; the quotient has no value when no bit is set in
    either vector. *)
Definition similarity_score (a b : fingerprint) : option Qc :=
  let u := on_bits (union a b) in
  if (u =? 0)%nat then None
  else Some (Q2Qc (Z.of_nat (on_bits (intersection a b)) # Pos.of_nat u)).

End Similarity.

Module Ranker.

(** A row of the similarity table. *)
Record pair := Pair {
  query_id : string;
  reference_compound_id : string;
  target_id : string;
  protein_id : string;
  similarity : Qc
}.

(** A row of the prediction output. *)
Record prediction := Prediction {
  p_query : string;
  p_target : string;
  p_protein : string;
  mean_similarity : Qc;
  rank : nat
}.

#[global] Instance pair_eq_dec : EqDecision pair.
Proof. solve_decision. Defined.

#[global] Instance prediction_eq_dec : EqDecision prediction.
Proof. solve_decision. Defined.









End Ranker.

(* ===================================================================== *)
(** ** Vocabulary of the statements *)
(* ===================================================================== *)

(** A value that the parser may store under an argument's destination. *)
Definition stored (a : argument) (v : value) : Prop :=
  (action_ a = StoreTrue /\ v = VBool true)
  \/ (action_ a = Store /\ exists w, convert a w = inr v)
  \/ (action_ a = Store /\ nargs a = Star /\ exists vs, v = VList vs).




(** What the scheme asks of the namespace [after], given the one parsed. *)
Definition handled (requested after : Namespace) : Prop :=
  (requested !! "fingerprint" = Some (VStr "maccs") ->
   after !! "nBits" = Some (VInt 116) /\ after !! "radius" = Some VNone)
  /\ (requested !! "fingerprint" = Some (VStr "avalon") ->
      after !! "radius" = Some VNone /\ after !! "nBits" = requested !! "nBits").

(** What a step added to the trace. *)
Definition new_events (w w' : world) : list event := drop (length (trace w)) (trace w').

(** The paths read, and the paths handed to the ranking, in a trace. *)
Definition files_read (t : list event) : list string :=
  omap (fun e => match e with ReadCsv p => Some p | _ => None end) t.

Definition ranked_to (t : list event) : list string :=
  omap (fun e => match e with Call_rankTargets _ _ p => Some p | _ => None end) t.

(** The (compound, target) pairs of a reference table. *)
Definition compound_target_pairs (cta : DataFrame) : list row :=
  match getitem ["molregno"; "target_chembl_id"] cta with
  | inl _ => []
  | inr pairs => rows pairs
  end.

(** [Q] holds of the world and the result that [m] leaves from [w]. *)
Definition wp {A} (m : M A) (w : world) (Q : world -> exn + A -> Prop) : Prop :=
  Q (m w).1 (m w).2.

(** A step never takes an event back. *)
Definition grows {A} (m : M A) : Prop := forall w, trace w `prefix_of` trace (m w).1.


(** A value that the parser stores under an argument's destination, with
    the words it came from. *)
Definition stored_of_words (a : argument) (v : value) : Prop :=
  (action_ a = StoreTrue /\ v = VBool true)
  \/ (action_ a = Store /\ nargs a = One /\ exists w, convert a w = inr v)
  \/ (action_ a = Store /\ nargs a = Star
      /\ exists ws vs, convert_all a ws = inr vs /\ v = VList vs).

(** The attributes that [generate_CTA.py] and [predict_targets.py] share,
    as [parse_args] leaves them. *)
Definition scheme_options (ns : Namespace) : Prop :=
  (exists s, ns !! "fingerprint" = Some (VStr s)
             /\ s ∈ ["avalon"; "ecfp"; "fcfp"; "maccs"])
  /\ (ns !! "radius" = Some (VInt 2) \/ ns !! "radius" = Some (VInt 3))
  /\ (exists z, ns !! "n_jobs" = Some (VInt z))
  /\ (exists b, ns !! "verbose" = Some (VBool b))
  /\ (exists s, ns !! "outputPath" = Some (VStr s)).


(** [args.top_k] after parsing: the integer 1, or a list of integers. *)
Definition top_k_list (ns : Namespace) : Prop :=
  exists zs, ns !! "top_k" = Some (VList (VInt <$> zs)).




(** The file of a query list, and the path its ranking is written under. *)
Definition smiles_file (inputPath db_name : string) : string :=
  join inputPath (db_name +:+ "_smiles.csv").

Definition potential_targets_path (outputPath db_name CTA_id : string) : string :=
  join (join outputPath "potential_targets/")
       (db_name +:+ "_using_dataset_id_" +:+ CTA_id +:+ "_include_with_k_value_of").

(** Every event that a step adds to the trace satisfies [P]. *)
Definition adds (P : event -> Prop) {A} (m : M A) : Prop :=
  forall w, exists evs, trace (m w).1 = trace w ++ evs /\ Forall P evs.

(* ===================================================================== *)
(** ** A small run: helpers, reference data and files *)
(* ===================================================================== *)

Module Example.

(** The namespace of a command line that parses. *)
Definition parsed (r : exn + Namespace) : Namespace :=
  match r with
  | inr ns => ns
  | inl _ => ∅
  end.

Definition assert_query_resource_files (present : gset string) (args : Namespace)
    : option (list string) :=
  Some ["QueryList1"; "QueryList2"; "QueryList3"].

(** Compound 1 acts on a target of two proteins; compound 2 has no
    protein recorded. *)
Definition select_CTA_reference_dataset (args : Namespace) : DataFrame * string :=
  (Frame ["molregno"; "clean_smiles"; "uniprot"; "target_chembl_id"; "standard_value"]
     [ [Some (CInt 1); Some (CStr "CCO"); Some (CStr "P11111"); Some (CStr "CHEMBL100");
        Some (CFloat (dec 50 1))];
       [Some (CInt 1); Some (CStr "CCO"); Some (CStr "P22222"); Some (CStr "CHEMBL100");
        Some (CFloat (dec 50 1))];
       [Some (CInt 2); Some (CStr "CCN"); None; Some (CStr "CHEMBL200");
        Some (CFloat (dec 900 1))] ],
   "7").

(** A toy fingerprint: which letters of the structure are a carbon. *)
Definition fingerprint_of (c : cell) : cell :=
  match c with
  | Some (CStr s) =>
      Some (CBits (map (fun a => Ascii.eqb a "C"%char) (list_ascii_of_string s)))
  | _ => None
  end.

Definition gen_fps (args : Namespace) (structures : DataFrame) (kind : string) : outcome :=
  Outcome structures
    (New (Frame ["molregno"; "fp"]
            (map (fun r => [cell_at r 0; fingerprint_of (cell_at r 1)]) (rows structures)))).

Definition preprocess_Query_SMILES (args : Namespace) (query_list : DataFrame) : outcome :=
  Outcome query_list Same.

(** Every query against every reference row, scored by [similarity_score]. *)
Definition Query_conductSS (args : Namespace) (query reference : DataFrame) : DataFrame :=
  Frame ["np_id"; "molregno"; "target_chembl_id"; "uniprot"; "similarity"]
    (q ← rows query;
     r ← rows reference;
     match cell_at q 1, cell_at r 3 with
     | Some (CBits a), Some (CBits b) =>
         match Similarity.similarity_score a b with
         | Some score =>
             [[cell_at q 0; cell_at r 0; cell_at r 1; cell_at r 2; Some (CFloat score)]]
         | None => []
         end
     | _, _ => []
     end).

(** One file holds no compound. *)
Definition read_csv (path : string) : DataFrame :=
  Frame ["np_id"; "smiles"]
    (if String.eqb path "input/Empty_smiles.csv" then []
     else [[Some (CStr "NP1"); Some (CStr "CCO")]]).

Definition pass := PredictTargets.pass gen_fps preprocess_Query_SMILES Query_conductSS read_csv.
Definition loop := PredictTargets.loop gen_fps preprocess_Query_SMILES Query_conductSS read_csv.
Definition reference_table :=
  PredictTargets.reference_table select_CTA_reference_dataset gen_fps.
Definition main :=
  PredictTargets.main assert_query_resource_files select_CTA_reference_dataset gen_fps
    preprocess_Query_SMILES Query_conductSS read_csv.

(** The files of lists 1 and 3 are there; the file of list 2 is not. *)
Definition two_of_three : gset string :=
  {[ "input/QueryList1_smiles.csv"; "input/QueryList3_smiles.csv" ]}.

(** The namespace of a run without options, and the reference table of
    the example as the loop finds it. *)
Definition args : Namespace := parsed (PredictTargets.parse_args []).

Definition CTA : DataFrame :=
  match PredictTargets.reference_by_value select_CTA_reference_dataset gen_fps args with
  | inr (cta, _) => cta
  | inl _ => Frame [] []
  end.

Definition ready (files : gset string) : world := World files {[ 0%nat := CTA ]} [].

(** What the search is handed for the file without compounds. *)
Definition reference : DataFrame :=
  match getitem PredictTargets.search_columns CTA with
  | inr selected => selected
  | inl _ => Frame [] []
  end.

Definition no_query : DataFrame := Frame ["np_id"; "fp"] [].

(** Command lines. *)
Definition maccs_512 : list (string * list word) :=
  [ ("--fingerprint", [Word "maccs" DText]);
    ("--nBits", [Word "512" (DInt 512)]);
    ("--radius", [Word "3" (DInt 3)]) ].







Definition k_1_3_5 : list (string * list word) :=
  [ ("--k", [Word "1" (DInt 1); Word "3" (DInt 3); Word "5" (DInt 5)]) ].

Definition nBits_512 : list (string * list word) :=
  [ ("--nBits", [Word "512" (DInt 512)]); ("--radius", [Word "3" (DInt 3)]) ].


End Example.

(* ===================================================================== *)
(** * Properties *)
(* ===================================================================== *)

#[local] Set Warnings "-clear-no-such-hyp".
Local Open Scope script_scope.

(** ** Parsing: what a parser built from a list of arguments guarantees *)

Lemma find_argument_elem specs f a :
  find_argument specs f = Some a -> a ∈ specs /\ flag a = f.
Proof.
  unfold find_argument. intros H. apply find_some in H as [Hin Heq].
  split; [by apply list_elem_of_In | by apply String.eqb_eq].
Qed.

Lemma consume_invariant specs (P : Namespace -> Prop) :
  (forall ns a v, P ns -> a ∈ specs -> stored a v -> P (<[dest a := v]> ns)) ->
  forall st item st', P st.1 -> consume specs st item = inr st' -> P st'.1.
Proof.
  intros Hstep [ns extras] [f ws] st' HP. unfold consume. simpl in HP.
  destruct (find_argument specs f) as [a|] eqn:Hfind.
  - apply find_argument_elem in Hfind as [Hin _].
    destruct (action_ a) eqn:Hact.
    + destruct (nargs a) eqn:Hn.
      * destruct ws as [|w rest]; [discriminate|].
        destruct (convert a w) as [e|v] eqn:Hc; [discriminate|].
        intros [= <-]. simpl. apply Hstep; auto. right; left. eauto.
      * destruct (convert_all a ws) as [e|vs]; [discriminate|].
        intros [= <-]. simpl. apply Hstep; auto. right; right. eauto.
    + intros [= <-]. simpl. apply Hstep; auto. left. auto.
  - intros [= <-]. exact HP.
Qed.

Lemma consume_all_invariant specs (P : Namespace -> Prop) :
  (forall ns a v, P ns -> a ∈ specs -> stored a v -> P (<[dest a := v]> ns)) ->
  forall argv st st', P st.1 -> consume_all specs st argv = inr st' -> P st'.1.
Proof.
  intros Hstep argv. induction argv as [|item argv IH]; intros st st' HP; simpl.
  - intros [= <-]. exact HP.
  - destruct (consume specs st item) as [e|st1] eqn:Hc; [discriminate|].
    apply IH. eapply consume_invariant; eauto.
Qed.

Lemma parse_invariant specs (P : Namespace -> Prop) argv ns :
  (forall ns a v, P ns -> a ∈ specs -> stored a v -> P (<[dest a := v]> ns)) ->
  P (defaults specs) ->
  parse specs argv = inr ns -> P ns.
Proof.
  intros Hstep H0. unfold parse.
  destruct (consume_all specs (defaults specs, []) argv) as [e|[ns' extras]] eqn:Hc;
    [discriminate|].
  destruct extras; [|discriminate]. intros [= <-].
  exact (consume_all_invariant specs P Hstep argv (defaults specs, []) (ns', []) H0 Hc).
Qed.












Section PredictParse.

Variable assert_query_resource_files : gset string -> Namespace -> option (list string).
Variable select_CTA_reference_dataset : Namespace -> DataFrame * string.
Variable gen_fps : Namespace -> DataFrame -> string -> outcome.
Variable preprocess_Query_SMILES : Namespace -> DataFrame -> outcome.
Variable Query_conductSS : Namespace -> DataFrame -> DataFrame -> DataFrame.
Variable read_csv : string -> DataFrame.



End PredictParse.

(** ** A program logic for the scripts

    [wp m w Q]: running [m] from the world [w] leaves a world and a result
    that satisfy [Q].  The rules for the object store carry a map [P] of
    the objects known so far, with their frames, that the store extends:
    a step that does not touch an object of [P] leaves it as it is. *)

Section Rules.

Context {A B : Type}.
Implicit Types (Q : world -> exn + A -> Prop) (f : gset string) (h P : gmap nat DataFrame)
  (t : list event).

Lemma wp_bind (m : M A) (k : A -> M B) w (R : world -> exn + B -> Prop) :
  wp m w (fun w' r => match r with inl e => R w' (inl e) | inr a => wp (k a) w' R end) ->
  wp (bind m k) w R.
Proof. unfold wp, bind. destruct (m w) as [w' [e|a]]; simpl; auto. Qed.

Lemma wp_ret (a : A) w Q : Q w (inr a) -> wp (ret a) w Q.
Proof. auto. Qed.

Lemma wp_raise e w Q : Q w (inl e) -> wp (raise e) w Q.
Proof. auto. Qed.

Lemma wp_lift (r : exn + A) w Q : Q w r -> wp (lift r) w Q.
Proof. destruct r; auto. Qed.

End Rules.

Section HeapRules.

Implicit Types (f : gset string) (h P : gmap nat DataFrame) (t : list event).

Lemma wp_emit e f h t (Q : world -> exn + unit -> Prop) :
  Q (World f h (t ++ [e])) (inr tt) -> wp (emit e) (World f h t) Q.
Proof. auto. Qed.

Lemma wp_makedirs p f h t (Q : world -> exn + unit -> Prop) :
  Q (World ({[p]} ∪ f) h (t ++ [Makedirs p])) (inr tt) -> wp (makedirs p) (World f h t) Q.
Proof. auto. Qed.

Lemma wp_path_exists p f h t (Q : world -> exn + bool -> Prop) :
  Q (World f h t) (inr (bool_decide (p ∈ f))) -> wp (path_exists p) (World f h t) Q.
Proof. auto. Qed.

Lemma wp_alloc P df f h t (Q : world -> exn + nat -> Prop) :
  P ⊆ h ->
  (forall l h', P !! l = None -> <[l := df]> P ⊆ h' -> Q (World f h' t) (inr l)) ->
  wp (alloc df) (World f h t) Q.
Proof.
  intros HP HQ. unfold wp, alloc. simpl.
  assert (Hfresh : h !! fresh (dom h) = None).
  { apply not_elem_of_dom. apply is_fresh. }
  apply HQ.
  - eapply lookup_weaken_None; eauto.
  - by apply insert_mono.
Qed.

Lemma wp_load P var l x f h t (Q : world -> exn + DataFrame -> Prop) :
  P ⊆ h -> P !! l = Some x ->
  Q (World f h t) (inr x) -> wp (load var l) (World f h t) Q.
Proof.
  intros HP Hl HQ. unfold wp, load. simpl.
  by rewrite (lookup_weaken _ _ _ _ Hl HP).
Qed.

Lemma wp_inplace P g l x f h t (Q : world -> exn + unit -> Prop) :
  P ⊆ h -> P !! l = Some x ->
  (forall h', <[l := g x]> P ⊆ h' -> Q (World f h' t) (inr tt)) ->
  wp (inplace g l) (World f h t) Q.
Proof.
  intros HP Hl HQ. unfold wp, inplace. simpl. apply HQ.
  apply map_subseteq_spec. intros i y Hi.
  destruct (decide (i = l)) as [->|Hne].
  - rewrite lookup_insert_eq in Hi. injection Hi as <-.
    rewrite lookup_alter_eq, (lookup_weaken _ _ _ _ Hl HP). reflexivity.
  - rewrite lookup_insert_ne in Hi by done. rewrite lookup_alter_ne by done.
    eapply lookup_weaken; eauto.
Qed.

Lemma wp_del P l f h t (Q : world -> exn + unit -> Prop) :
  P ⊆ h ->
  (forall h', delete l P ⊆ h' -> Q (World f h' t) (inr tt)) ->
  wp (del l) (World f h t) Q.
Proof.
  intros HP HQ. unfold wp, del. simpl. apply HQ. by apply delete_mono.
Qed.

Lemma wp_derive P var g l x f h t (Q : world -> exn + nat -> Prop) :
  P ⊆ h -> P !! l = Some x ->
  match g x with
  | inl e => Q (World f h t) (inl e)
  | inr y => forall l' h', P !! l' = None -> <[l' := y]> P ⊆ h' -> Q (World f h' t) (inr l')
  end ->
  wp (derive var g l) (World f h t) Q.
Proof.
  intros HP Hl HQ. unfold derive.
  apply wp_bind. eapply wp_load; eauto.
  apply wp_bind. apply wp_lift. destruct (g x) as [e|y]; [exact HQ|].
  eapply wp_alloc; eauto.
Qed.

Lemma wp_call P var ev g l x f h t (Q : world -> exn + nat -> Prop) :
  P ⊆ h -> P !! l = Some x ->
  (forall l' h',
      l' = l \/ P !! l' = None ->
      <[l' := result_value (g x)]> (<[l := arg_after (g x)]> P) ⊆ h' ->
      Q (World f h' (t ++ [ev x])) (inr l')) ->
  wp (call var ev g l) (World f h t) Q.
Proof.
  intros HP Hl HQ. unfold call.
  apply wp_bind. eapply wp_load; eauto.
  apply wp_bind. apply wp_emit.
  apply wp_bind. eapply wp_inplace; eauto. intros h1 H1. simpl.
  unfold result_value in HQ. destruct (returns (g x)) as [d|].
  - eapply wp_alloc; eauto. intros l' h' Hl' Hh'. apply HQ; [|exact Hh'].
    right. apply lookup_insert_None in Hl'. tauto.
  - apply wp_ret. apply HQ; [by left|]. by rewrite insert_insert_eq.
Qed.

End HeapRules.

Lemma wp_run {A} (m : M A) w (Q : world -> exn + A -> Prop) :
  wp m w Q -> Q (m w).1 (m w).2.
Proof. auto. Qed.

Lemma run_wp {A} (m : M A) w (Q : world -> exn + A -> Prop) :
  Q (m w).1 (m w).2 -> wp m w Q.
Proof. auto. Qed.

#[global] Opaque wp.

(** ** predict_targets.py: the loop over the query sets *)

Ltac not_protected H :=
  let E := fresh in
  intros E; subst; rewrite ?lookup_insert_ne in H by done;
  rewrite ?lookup_singleton_eq, ?lookup_insert_eq in H; discriminate.

Ltac protected_lookup :=
  rewrite ?lookup_delete_ne by done; rewrite ?lookup_insert_ne by done;
  apply lookup_singleton_eq.

Section PassFacts.

Variable gen_fps : Namespace -> DataFrame -> string -> outcome.
Variable preprocess_Query_SMILES : Namespace -> DataFrame -> outcome.
Variable Query_conductSS : Namespace -> DataFrame -> DataFrame -> DataFrame.
Variable read_csv : string -> DataFrame.

Local Abbreviation pass :=
  (PredictTargets.pass gen_fps preprocess_Query_SMILES Query_conductSS read_csv).
Local Abbreviation pass_by_value :=
  (PredictTargets.pass_by_value gen_fps preprocess_Query_SMILES Query_conductSS read_csv).

(** A pass over the object store does what its by-value reading says, and
    leaves the object of the reference table alone. *)
Lemma pass_refines args CTA CTA_id db f h t cta :
  h !! CTA = Some cta ->
  wp (pass args CTA CTA_id db) (World f h t)
     (fun w' r =>
        let v := pass_by_value args cta CTA_id (fun p => bool_decide (p ∈ f)) db in
        trace w' = t ++ v.1 /\ r = v.2 /\ heap w' !! CTA = Some cta /\ f ⊆ fs w').
Proof.
  intros HCTA.
  assert (HP : ({[CTA := cta]} : gmap nat DataFrame) ⊆ h) by (by apply map_singleton_subseteq_l).
  unfold PredictTargets.pass, PredictTargets.pass_by_value, print.
  apply wp_bind, wp_emit.
  apply wp_bind. unfold getattr.
  destruct (args !! "inputPath") as [v|]; [|apply wp_bind, wp_raise; simpl; done].
  apply wp_bind, wp_ret. unfold as_path.
  destruct v as [| | | |inputPath|]; try (apply wp_raise; simpl; done).
  apply wp_ret. apply wp_bind, wp_path_exists.
  set (smiles := join inputPath (db +:+ "_smiles.csv")).
  destruct (bool_decide (smiles ∈ f)) eqn:Hthere; simpl.
  2:{ apply wp_bind, wp_emit. apply wp_bind, wp_emit. apply wp_ret. simpl.
      rewrite <- !app_assoc. done. }
  unfold PredictTargets.search_by_value.
  apply wp_bind, wp_emit.
  apply wp_bind. eapply wp_alloc; [exact HP|]. intros l1 h1 Hl1 HP1.
  apply wp_bind. eapply wp_call; [exact HP1|by rewrite lookup_insert_eq|].
  intros l2 h2 Hl2 HP2. set (o1 := preprocess_Query_SMILES args (read_csv smiles)) in *.
  apply wp_bind. eapply wp_inplace; [exact HP2|by rewrite lookup_insert_eq|].
  intros h3 HP3.
  apply wp_bind. eapply wp_call; [exact HP3|by rewrite lookup_insert_eq|].
  intros l4 h4 Hl4 HP4.
  set (clean := rename "np_id" "molregno" (result_value o1)) in *.
  set (o2 := gen_fps args clean "Query") in *.
  apply wp_bind. eapply wp_derive; [exact HP4|by rewrite lookup_insert_eq|]. simpl.
  intros l5 h5 Hl5 HP5.
  apply wp_bind. eapply wp_inplace; [exact HP5|by rewrite lookup_insert_eq|].
  intros h6 HP6.
  assert (HC6 : h6 !! CTA = Some cta).
  { eapply lookup_weaken; [|exact HP6].
    assert (l1 <> CTA) by not_protected Hl1.
    assert (l2 <> CTA) by (destruct Hl2 as [->|Hl2]; [done|not_protected Hl2]).
    assert (l4 <> CTA) by (destruct Hl4 as [->|Hl4]; [done|not_protected Hl4]).
    assert (l5 <> CTA) by not_protected Hl5.
    protected_lookup. }
  apply wp_bind. apply wp_bind.
  eapply wp_load; [exact HP6|by rewrite lookup_insert_eq|].
  apply wp_lift.
  destruct (getitem ["np_id"; "fp"] _) as [e|query]; [simpl; by rewrite <- !app_assoc|].
  apply wp_bind. apply wp_bind.
  eapply wp_load; [|exact HC6|]; [done|].
  apply wp_lift.
  destruct (getitem PredictTargets.search_columns cta) as [e|reference];
    [simpl; by rewrite <- !app_assoc|].
  apply wp_bind, wp_emit.
  apply wp_bind.
  eapply (wp_alloc {[CTA := cta]}); [by apply map_singleton_subseteq_l|].
  intros l7 h7 Hl7 HP7.
  set (found := Query_conductSS args query reference) in *.
  apply wp_bind. eapply wp_load; [exact HP7|by rewrite lookup_insert_eq|].
  assert (l7 <> CTA) by not_protected Hl7.
  assert (HC7 : h7 !! CTA = Some cta)
    by (eapply lookup_weaken; [|exact HP7]; protected_lookup).
  unfold PredictTargets.report_by_value.
  destruct (0 <? len found)%nat.
  2:{ apply wp_bind, wp_ret. apply wp_ret. simpl. rewrite <- ?app_assoc, ?app_nil_r. done. }
  apply wp_bind. apply wp_bind. apply wp_bind. unfold getattr.
  destruct (args !! "outputPath") as [v|];
    [|apply wp_raise; simpl; rewrite <- ?app_assoc, ?app_nil_r; done].
  apply wp_ret. unfold as_path.
  destruct v as [| | | |outputPath|];
    try (apply wp_raise; simpl; rewrite <- ?app_assoc, ?app_nil_r; done).
  apply wp_ret.
  apply wp_bind, wp_makedirs. apply wp_bind, wp_emit.
  apply wp_bind. eapply wp_del; [exact HP7|]. intros h8 HP8.
  apply wp_emit. apply wp_ret. simpl.
  rewrite <- !app_assoc. simpl. split_and!; [done|done| |set_solver].
  eapply lookup_weaken; [|exact HP8]. protected_lookup.
Qed.

Local Abbreviation loop :=
  (PredictTargets.loop gen_fps preprocess_Query_SMILES Query_conductSS read_csv).

(** [pass_refines] without the program logic. *)
Lemma pass_by_value_spec args CTA CTA_id db w cta :
  heap w !! CTA = Some cta ->
  let r := pass args CTA CTA_id db w in
  let v := pass_by_value args cta CTA_id (fun p => bool_decide (p ∈ fs w)) db in
  trace r.1 = trace w ++ v.1 /\ r.2 = v.2 /\ heap r.1 !! CTA = Some cta /\ fs w ⊆ fs r.1.
Proof.
  intros H. destruct w as [f h t].
  exact (wp_run _ _ _ (pass_refines args CTA CTA_id db f h t cta H)).
Qed.

Lemma loop_keeps_reference args CTA CTA_id names :
  forall w cta, heap w !! CTA = Some cta ->
  heap (loop args CTA CTA_id names w).1 !! CTA = Some cta.
Proof.
  induction names as [|db rest IH]; intros w cta H; simpl; [exact H|].
  destruct (pass_by_value_spec args CTA CTA_id db w cta H) as (_ & _ & Hkeep & _).
  unfold bind. destruct (pass args CTA CTA_id db w) as [w1 [e|[]]]; simpl in *; auto.
Qed.

(** A pass never asks for the reference dataset again. *)
Lemma pass_by_value_no_select args cta CTA_id exist db a :
  Call_select_CTA_reference_dataset a ∉ (pass_by_value args cta CTA_id exist db).1.
Proof.
  unfold PredictTargets.pass_by_value.
  destruct (args !! "inputPath") as [[| | | |inputPath|]|]; simpl;
    try (set_unfold; naive_solver).
  destruct (negb _); simpl; [set_unfold; naive_solver|].
  unfold PredictTargets.search_by_value.
  destruct (getitem ["np_id"; "fp"] _) as [e|q]; [set_unfold; naive_solver|].
  destruct (getitem PredictTargets.search_columns cta) as [e|r]; [set_unfold; naive_solver|].
  unfold PredictTargets.report_by_value.
  destruct (0 <? len _)%nat; [|simpl; set_unfold; naive_solver].
  destruct (args !! "outputPath") as [[| | | |outputPath|]|]; simpl; set_unfold; naive_solver.
Qed.

(** C9.  The loop over the query sets leaves the reference table as it
    found it: the object that [CTA] names holds the same frame after the
    loop as before, whatever the helpers do to the objects they are
    handed.  And what a pass does (the events it adds, how it ends) is the
    by-value reading of the pass: a function of the options, of that
    table, and of the list's own file (whether it exists, what
    [read_csv] finds in it); no pass selects the reference dataset
    again. *)
Theorem reference_read_only args CTA CTA_id names w cta :
  heap w !! CTA = Some cta ->
  heap (loop args CTA CTA_id names w).1 !! CTA = Some cta
  /\ forall db_name w',
      heap w' !! CTA = Some cta ->
      let r := pass args CTA CTA_id db_name w' in
      let v := pass_by_value args cta CTA_id (fun p => bool_decide (p ∈ fs w')) db_name in
      trace r.1 = trace w' ++ v.1 /\ r.2 = v.2 /\ heap r.1 !! CTA = Some cta
      /\ forall a, Call_select_CTA_reference_dataset a ∉ new_events w' r.1.
Proof.
  intros H. split; [by apply loop_keeps_reference|].
  intros db w' H'. destruct (pass_by_value_spec args CTA CTA_id db w' cta H') as (Ht&?&?&?).
  split_and!; [done..|].
  intros a. unfold new_events. rewrite Ht, drop_app_length.
  apply pass_by_value_no_select.
Qed.

(** C6.  A pass whose similarity search returns a frame without rows ends
    without an exception; it neither creates the output directory nor
    calls [rankTargets], so no prediction file is written for the list;
    and the loop goes on with the remaining lists. *)
Theorem empty_search_no_output args CTA CTA_id db_name rest w cta query reference :
  heap w !! CTA = Some cta ->
  Call_Query_conductSS args query reference ∈ new_events w (pass args CTA CTA_id db_name w).1 ->
  len (Query_conductSS args query reference) = O ->
  (pass args CTA CTA_id db_name w).2 = inr PredictTargets.Continue
  /\ (forall e, e ∈ new_events w (pass args CTA CTA_id db_name w).1 ->
       (forall p, e <> Makedirs p) /\ (forall a found p, e <> Call_rankTargets a found p))
  /\ loop args CTA CTA_id (db_name :: rest) w
     = loop args CTA CTA_id rest (pass args CTA CTA_id db_name w).1.
Proof.
  intros H Hin Hlen.
  destruct (pass_by_value_spec args CTA CTA_id db_name w cta H) as (Ht & Hr & _ & _).
  unfold new_events in *. rewrite Ht in *. rewrite drop_app_length in *.
  assert (Hv : exists evs,
             pass_by_value args cta CTA_id (fun p => bool_decide (p ∈ fs w)) db_name
             = (evs, inr PredictTargets.Continue)
             /\ forall e, e ∈ evs ->
                  (forall p, e <> Makedirs p)
                  /\ (forall a found p, e <> Call_rankTargets a found p)).
  { revert Hin. clear Ht Hr. unfold PredictTargets.pass_by_value.
    destruct (args !! "inputPath") as [[| | | |inputPath|]|]; simpl;
      try (intros Hin; set_unfold; naive_solver).
    destruct (negb _); simpl; [intros Hin; set_unfold; naive_solver|].
    unfold PredictTargets.search_by_value.
    destruct (getitem ["np_id"; "fp"] _) as [e|q]; [intros Hin; set_unfold; naive_solver|].
    destruct (getitem PredictTargets.search_columns cta) as [e|r];
      [intros Hin; set_unfold; naive_solver|].
    unfold PredictTargets.report_by_value.
    destruct (0 <? len (Query_conductSS args q r))%nat eqn:Hpos.
    - intros Hin. exfalso.
      assert (Call_Query_conductSS args query reference = Call_Query_conductSS args q r) as E.
      { destruct (args !! "outputPath") as [[| | | |outputPath|]|]; simpl in Hin;
          set_unfold; naive_solver. }
      injection E as -> ->. rewrite Hlen in Hpos. discriminate.
    - intros _. eexists. split; [reflexivity|]. intros e He. set_unfold. naive_solver. }
  destruct Hv as (evs & Hv & Hno). rewrite Hv in *. simpl in *.
  split; [exact Hr|]. split; [exact Hno|].
  unfold bind. destruct (pass args CTA CTA_id db_name w) as [w1 r1]. simpl in *.
  rewrite Hr. reflexivity.
Qed.

(** C1, as the code has it.  When the loop reaches a query list whose
    file is absent, it prints a message that names the missing path and
    ends: nothing more is done for that list or for any list after it;
    what the earlier lists left in the world stays; no exception is
    raised. *)
Theorem missing_file_ends_loop args CTA CTA_id db_name rest w inputPath :
  args !! "inputPath" = Some (VStr inputPath) ->
  join inputPath (db_name +:+ "_smiles.csv") ∉ fs w ->
  loop args CTA CTA_id (db_name :: rest) w
  = (World (fs w) (heap w)
       (trace w ++
          [ Print Log (PredictTargets.banner db_name);
            Print Stdout ("Error, file not found " +:+ join inputPath (db_name +:+ "_smiles.csv"));
            Print Stdout ("It must be a csv file which contains smiles strings in a column named "
                          +:+ "'smiles' and compound id in a column named 'np_id'") ]),
     inr tt).
Proof.
  intros Hin Hmiss. simpl.
  unfold bind, PredictTargets.pass, bind, print, emit, getattr, as_path, path_exists.
  rewrite Hin. simpl. rewrite bool_decide_eq_false_2 by exact Hmiss. simpl.
  rewrite <- !app_assoc. reflexivity.
Qed.

End PassFacts.

(** ** update_chembl_np.py *)

Lemma wp_getattr ns a v w (Q : world -> exn + value -> Prop) :
  ns !! a = Some v -> Q w (inr v) -> wp (getattr ns a) w Q.
Proof. intros H HQ. unfold getattr. rewrite H. exact HQ. Qed.

Lemma wp_getattr_missing ns a w (Q : world -> exn + value -> Prop) :
  ns !! a = None -> Q w (inl (AttributeError a)) -> wp (getattr ns a) w Q.
Proof. intros H HQ. unfold getattr. rewrite H. exact HQ. Qed.

Lemma wp_open_append p f h t (Q : world -> exn + unit -> Prop) :
  Q (World ({[p]} ∪ f) h (t ++ [OpenAppend p])) (inr tt) -> wp (open_append p) (World f h t) Q.
Proof. auto. Qed.

Lemma defaults_has_dest specs a : a ∈ specs -> is_Some (defaults specs !! dest a).
Proof.
  induction 1 as [a specs|a b specs _ IH]; simpl.
  - rewrite lookup_insert_eq. eauto.
  - apply lookup_insert_is_Some'. by right.
Qed.

(** Every declared destination is an attribute of the parsed namespace. *)
Lemma parse_has_dest specs argv ns a :
  a ∈ specs -> parse specs argv = inr ns -> is_Some (ns !! dest a).
Proof.
  intros Ha. apply (parse_invariant specs (fun ns => is_Some (ns !! dest a))).
  - intros ns0 b v H _ _. apply lookup_insert_is_Some'. by right.
  - by apply defaults_has_dest.
Qed.

Ltac each_argument H :=
  repeat (apply elem_of_cons in H as [->|H]); [..|by apply elem_of_nil in H].

Ltac stored_cases H :=
  destruct H as [[? ?]|[[? [? H]]|[? [? [? ?]]]]]; try discriminate.



Ltac run :=
  repeat first
    [ apply wp_bind
    | apply wp_ret
    | apply wp_raise
    | apply wp_emit
    | apply wp_makedirs
    | apply wp_open_append
    | apply wp_path_exists
    | (eapply wp_getattr; [eassumption|])
    | (eapply wp_getattr_missing; [eassumption|]) ].






(** ** The trace only grows *)

Section Grows.

Context {A B : Type}.

Lemma grows_ret (a : A) : grows (ret a).
Proof. intros w. reflexivity. Qed.

Lemma grows_raise e : grows (@raise A e).
Proof. intros w. reflexivity. Qed.

Lemma grows_lift (r : exn + A) : grows (lift r).
Proof. destruct r; [apply grows_raise|apply grows_ret]. Qed.

Lemma grows_bind (m : M A) (k : A -> M B) :
  grows m -> (forall a, grows (k a)) -> grows (bind m k).
Proof.
  intros Hm Hk w. unfold bind. specialize (Hm w).
  destruct (m w) as [w' [e|a]]; simpl in *; [exact Hm|].
  etrans; [exact Hm|apply Hk].
Qed.

End Grows.

Lemma grows_emit e : grows (emit e).
Proof. intros w. simpl. by apply prefix_app_r. Qed.

Lemma grows_makedirs p : grows (makedirs p).
Proof. intros w. simpl. by apply prefix_app_r. Qed.

Lemma grows_open_append p : grows (open_append p).
Proof. intros w. simpl. by apply prefix_app_r. Qed.

Lemma grows_path_exists p : grows (path_exists p).
Proof. intros w. reflexivity. Qed.

Lemma grows_getattr ns a : grows (getattr ns a).
Proof. unfold getattr. destruct (ns !! a); [apply grows_ret|apply grows_raise]. Qed.

Lemma grows_as_path v : grows (as_path v).
Proof. destruct v; first [apply grows_ret|apply grows_raise]. Qed.

Lemma grows_alloc df : grows (alloc df).
Proof. intros w. reflexivity. Qed.

Lemma grows_load var l : grows (load var l).
Proof. intros w. unfold load. destruct (heap w !! l); reflexivity. Qed.

Lemma grows_inplace g l : grows (inplace g l).
Proof. intros w. reflexivity. Qed.

Lemma grows_del l : grows (del l).
Proof. intros w. reflexivity. Qed.

Ltac grows_step :=
  first
    [ apply grows_bind; [|intros ?]
    | apply grows_ret | apply grows_raise | apply grows_lift | apply grows_emit
    | apply grows_makedirs | apply grows_open_append | apply grows_path_exists
    | apply grows_getattr | apply grows_as_path | apply grows_alloc | apply grows_load
    | apply grows_inplace | apply grows_del
    | assumption
    | match goal with
      | |- grows (if ?b then _ else _) => destruct b
      | |- grows (match ?x with _ => _ end) => destruct x
      | |- grows (let '(_, _) := ?x in _) => destruct x
      end ].

Lemma grows_derive var g l : grows (derive var g l).
Proof. unfold derive. repeat grows_step. Qed.

Lemma grows_call var ev g l : grows (call var ev g l).
Proof. unfold call. repeat grows_step. Qed.

Lemma grows_as_names vs : grows (PredictTargets.as_names vs).
Proof.
  induction vs as [|v vs IH]; simpl; [apply grows_ret|].
  destruct v; repeat grows_step.
Qed.

Lemma grows_iterate v : grows (PredictTargets.iterate v).
Proof. destruct v; simpl; first [apply grows_as_names|apply grows_raise]. Qed.

Section PredictGrows.

Variable assert_query_resource_files : gset string -> Namespace -> option (list string).
Variable select_CTA_reference_dataset : Namespace -> DataFrame * string.
Variable gen_fps : Namespace -> DataFrame -> string -> outcome.
Variable preprocess_Query_SMILES : Namespace -> DataFrame -> outcome.
Variable Query_conductSS : Namespace -> DataFrame -> DataFrame -> DataFrame.
Variable read_csv : string -> DataFrame.

Lemma grows_pass args CTA CTA_id db :
  grows (PredictTargets.pass gen_fps preprocess_Query_SMILES Query_conductSS read_csv
           args CTA CTA_id db).
Proof.
  unfold PredictTargets.pass, print.
  repeat first [apply grows_derive | apply grows_call | grows_step].
Qed.

Lemma grows_loop args CTA CTA_id names :
  grows (PredictTargets.loop gen_fps preprocess_Query_SMILES Query_conductSS read_csv
           args CTA CTA_id names).
Proof.
  induction names as [|db rest IH]; simpl; [apply grows_ret|].
  apply grows_bind; [apply grows_pass|]. intros []; [exact IH|apply grows_ret].
Qed.

End PredictGrows.

(** ** The fingerprint scheme and the namespace *)

Lemma wp_bind_bind {A B C} (m : M A) (k : A -> M B) (k' : B -> M C) w
    (Q : world -> exn + C -> Prop) :
  wp (bind m (fun a => bind (k a) k')) w Q -> wp (bind (bind m k) k') w Q.
Proof.
  intros H. apply run_wp. apply wp_run in H. revert H.
  unfold bind. destruct (m w) as [w' [e|a]]; simpl; auto.
Qed.

Lemma wp_of_grows {A} (m : M A) w (T : list event -> Prop) :
  grows m -> (forall t', trace w `prefix_of` t' -> T t') ->
  wp m w (fun w' _ => T (trace w')).
Proof. intros Hm HT. apply run_wp. apply HT, Hm. Qed.

Lemma handled_overrides (ns base : Namespace) v :
  ns !! "fingerprint" = Some v ->
  base !! "nBits" = ns !! "nBits" ->
  handled ns
    (if py_in v [VStr "avalon"; VStr "maccs"]
     then
       if value_eqb v (VStr "maccs")
       then <["nBits" := VInt 116]> (<["radius" := VNone]> base)
       else <["radius" := VNone]> base
     else base).
Proof.
  intros Hv Hbase. split; intros H; rewrite H in Hv; injection Hv as <-; simpl.
  - split; [by rewrite lookup_insert_eq|].
    rewrite lookup_insert_ne by done. by rewrite lookup_insert_eq.
  - split; [by rewrite lookup_insert_eq|].
    rewrite lookup_insert_ne by done. exact Hbase.
Qed.

Lemma generate_outputPath_str argv ns :
  GenerateCTA.parse_args argv = inr ns -> exists d, ns !! "outputPath" = Some (VStr d).
Proof.
  apply (parse_invariant _ (fun ns => exists d, ns !! "outputPath" = Some (VStr d))).
  - intros ns0 a v [d Hd] Ha Hst. each_argument Ha; simpl;
      try (rewrite lookup_insert_ne by done; eauto).
    rewrite lookup_insert_eq. stored_cases Hst. injection Hst as <-. eauto.
  - by eexists.
Qed.

Lemma predict_outputPath_str argv ns :
  PredictTargets.parse_args argv = inr ns -> exists d, ns !! "outputPath" = Some (VStr d).
Proof.
  apply (parse_invariant _ (fun ns => exists d, ns !! "outputPath" = Some (VStr d))).
  - intros ns0 a v [d Hd] Ha Hst. each_argument Ha; simpl;
      try (rewrite lookup_insert_ne by done; eauto).
    rewrite lookup_insert_eq. stored_cases Hst. injection Hst as <-. eauto.
  - by eexists.
Qed.

Ltac find_event :=
  repeat first [ apply list_elem_of_here | apply list_elem_of_further ].

Section Overrides.

Variable assert_query_resource_files : gset string -> Namespace -> option (list string).
Variable select_CTA_reference_dataset : Namespace -> DataFrame * string.
Variable gen_fps : Namespace -> DataFrame -> string -> outcome.
Variable preprocess_Query_SMILES : Namespace -> DataFrame -> outcome.
Variable Query_conductSS : Namespace -> DataFrame -> DataFrame -> DataFrame.
Variable read_csv : string -> DataFrame.

Local Abbreviation predict_main :=
  (PredictTargets.main assert_query_resource_files select_CTA_reference_dataset gen_fps
     preprocess_Query_SMILES Query_conductSS read_csv).

(** C2.  In both entry points the namespace that leaves the argument
    handling (the one handed to [createCTA], and to
    [select_CTA_reference_dataset]) has, for the maccs scheme, nBits 116
    and radius [None] whatever the command line gave, and for the avalon
    scheme radius [None] and the nBits of the command line. *)
Theorem fingerprint_scheme_overrides :
  (forall argv files ns,
      GenerateCTA.parse_args argv = inr ns ->
      exists after dir,
        Call_createCTA after dir ∈ trace (GenerateCTA.main argv (initial files)).1
        /\ handled ns after)
  /\ (forall argv files ns,
      PredictTargets.parse_args argv = inr ns ->
      (forall present, is_Some (assert_query_resource_files present ns)) ->
      exists after,
        Call_select_CTA_reference_dataset after ∈ trace (predict_main argv (initial files)).1
        /\ handled ns after).
Proof.
  split.
  - intros argv files ns Hparse.
    destruct (generate_outputPath_str argv ns Hparse) as [d Hd].
    destruct (parse_has_dest GenerateCTA.arguments argv ns
                (Argument "--fingerprint" "fingerprint" Store py_str One
                   (VStr "maccs") (Some fingerprint_choices))
                ltac:(set_solver) Hparse) as [v Hv].
    simpl in Hv.
    apply (wp_run (GenerateCTA.main argv) (initial files)
             (fun w' _ => exists after dir,
                  Call_createCTA after dir ∈ trace w' /\ handled ns after)).
    unfold GenerateCTA.main, initial, print.
    apply wp_bind. rewrite Hparse. apply wp_ret.
    run. case_bool_decide; simpl; run; simpl.
    all: eexists _, _; split; [find_event|].
    all: by apply (handled_overrides ns ns v).
  - intros argv files ns Hparse Hassert.
    destruct (predict_outputPath_str argv ns Hparse) as [d Hd].
    destruct (parse_has_dest PredictTargets.arguments argv ns
                (Argument "--fingerprint" "fingerprint" Store py_str One
                   (VStr "ecfp") (Some fingerprint_choices))
                ltac:(set_solver) Hparse) as [v Hv].
    simpl in Hv.
    apply (wp_run (predict_main argv) (initial files)
             (fun w' _ => exists after,
                  Call_select_CTA_reference_dataset after ∈ trace w' /\ handled ns after)).
    unfold PredictTargets.main, initial, print.
    apply wp_bind. rewrite Hparse. apply wp_ret.
    run. case_bool_decide; simpl; run.
    all: apply run_wp; simpl.
    all: match goal with |- context [assert_query_resource_files ?p _] =>
           destruct (Hassert p) as [names ->] end.
    all: apply wp_bind; eapply wp_getattr; [by rewrite lookup_insert_ne|].
    all: unfold PredictTargets.reference_table at 1.
    all: apply wp_bind_bind, wp_bind, wp_emit.
    all: apply (wp_of_grows _ _ (fun t' => exists after,
                  Call_select_CTA_reference_dataset after ∈ t' /\ handled ns after)).
    all: try (intros t' [k ->]; eexists; split;
              [apply elem_of_app; left; find_event
              |apply (handled_overrides ns _ v); [exact Hv|by rewrite lookup_insert_ne]]).
    all: repeat first
           [ apply grows_derive | apply grows_call | apply grows_loop | apply grows_iterate
           | grows_step ].
Qed.

End Overrides.

(** ** Data frames: duplicates and nulls *)

Lemma keep_first_spec (rs seen : list row) :
  NoDup (keep_first seen rs)
  /\ forall r, r ∈ keep_first seen rs -> (r ∉ seen) /\ (r ∈ rs).
Proof.
  revert seen. induction rs as [|r rs IH]; intros seen; simpl.
  - split; [constructor|]. intros r Hr. by apply elem_of_nil in Hr.
  - case_bool_decide as Hseen.
    + destruct (IH seen) as [Hnd Hin]. split; [exact Hnd|].
      intros x Hx. destruct (Hin x Hx). split; [done|]. by apply list_elem_of_further.
    + destruct (IH (r :: seen)) as [Hnd Hin]. split.
      * constructor; [|exact Hnd]. intros Hr. apply Hin in Hr as [Hr _].
        apply Hr. apply list_elem_of_here.
      * intros x Hx. apply elem_of_cons in Hx as [->|Hx].
        -- split; [done|apply list_elem_of_here].
        -- apply Hin in Hx as [Hx1 Hx2]. split.
           ++ intros Hs. apply Hx1. by apply list_elem_of_further.
           ++ by apply list_elem_of_further.
Qed.

Lemma drop_duplicates_NoDup df : NoDup (rows (drop_duplicates df)).
Proof. apply keep_first_spec. Qed.

Lemma drop_duplicates_subset df r : r ∈ rows (drop_duplicates df) -> r ∈ rows df.
Proof. intros H. exact (proj2 (proj2 (keep_first_spec (rows df) []) r H)). Qed.

Lemma dropna_NoDup df : NoDup (rows df) -> NoDup (rows (dropna df)).
Proof.
  intros H. unfold dropna. simpl.
  apply NoDup_ListNoDup, List.NoDup_filter. by apply NoDup_ListNoDup.
Qed.

Lemma dropna_spec df r :
  r ∈ rows (dropna df) <-> r ∈ rows df /\ no_null (length (columns df)) r = true.
Proof. unfold dropna. simpl. rewrite !list_elem_of_In. apply filter_In. Qed.

Lemma no_null_cell width r i :
  no_null width r = true -> (i < width)%nat -> is_Some (cell_at r i).
Proof.
  unfold no_null. rewrite forallb_forall. intros H Hi.
  specialize (H i). rewrite bool_decide_eq_true in H. apply H. apply in_seq. lia.
Qed.

Lemma index_of_lt c cs i : index_of c cs = Some i -> (i < length cs)%nat.
Proof.
  revert i. induction cs as [|c' cs IH]; intros i; simpl; [discriminate|].
  destruct (String.eqb c' c).
  - intros [= <-]. lia.
  - destruct (index_of c cs) as [j|]; simpl; [|discriminate].
    intros [= <-]. specialize (IH j eq_refl). lia.
Qed.

Lemma indices_of_spec wanted cs ixs :
  indices_of wanted cs = inr ixs ->
  length ixs = length wanted /\ Forall (fun i => (i < length cs)%nat) ixs.
Proof.
  revert ixs. induction wanted as [|c wanted IH]; intros ixs; simpl.
  - intros [= <-]. split; [reflexivity|constructor].
  - destruct (index_of c cs) as [i|] eqn:Hi; [|discriminate].
    destruct (indices_of wanted cs) as [e|ixs']; [discriminate|].
    intros [= <-]. destruct (IH ixs' eq_refl) as [Hlen Hall].
    split; [simpl; by rewrite Hlen|]. constructor; [by eapply index_of_lt|exact Hall].
Qed.

(** A selection has the columns asked for, and every row as many cells. *)
Lemma getitem_spec wanted df out :
  getitem wanted df = inr out ->
  columns out = wanted
  /\ forall r, r ∈ rows out ->
       length r = length wanted
       /\ exists r0, r0 ∈ rows df
            /\ Forall (fun c => exists i, (i < length (columns df))%nat /\ c = cell_at r0 i) r.
Proof.
  unfold getitem. destruct (indices_of wanted (columns df)) as [e|ixs] eqn:Hix; [discriminate|].
  intros [= <-]. simpl. split; [reflexivity|].
  apply indices_of_spec in Hix as [Hlen Hall].
  intros r Hr. apply list_elem_of_fmap in Hr as (r0 & -> & Hr0).
  split; [by rewrite length_map|].
  exists r0. split; [exact Hr0|].
  apply Forall_forall. intros c Hc.
  apply list_elem_of_fmap in Hc as (i & -> & Hi).
  exists i. split; [|reflexivity].
  rewrite Forall_forall in Hall. by apply Hall.
Qed.

(** No cell of a selection out of a frame without nulls is null. *)
Lemma getitem_dropna_no_null wanted df out :
  getitem wanted (dropna df) = inr out ->
  forall r, r ∈ rows out -> Forall (fun c : cell => is_Some c) r.
Proof.
  intros H r Hr. apply getitem_spec in H as [_ H].
  destruct (H r Hr) as (_ & r0 & Hr0 & Hcells).
  apply dropna_spec in Hr0 as [_ Hnn].
  eapply Forall_impl; [exact Hcells|]. intros c (i & Hi & ->).
  eapply no_null_cell; eauto.
Qed.

Lemma remove_nth_inj (i : nat) : forall (r1 r2 : row),
  is_Some (cell_at r1 i) -> cell_at r1 i = cell_at r2 i ->
  remove_nth i r1 = remove_nth i r2 -> r1 = r2.
Proof.
  unfold cell_at. induction i as [|i IH]; intros r1 r2 Hs Heq Hrm.
  - destruct r1 as [|x r1]; [by destruct Hs|].
    destruct r2 as [|y r2]; [simpl in *; rewrite Heq in Hs; by destruct Hs|].
    simpl in *. congruence.
  - destruct r1 as [|x r1]; [by destruct Hs|].
    destruct r2 as [|y r2]; [simpl in *; rewrite Heq in Hs; by destruct Hs|].
    simpl in *. injection Hrm as -> Hrm. f_equal. by apply IH.
Qed.

(** An inner merge of frames without duplicate rows has none either, when
    the left rows are equally long and have their key. *)
Lemma merge_NoDup left right key out n :
  merge left right key = inr out ->
  NoDup (rows left) -> NoDup (rows right) ->
  (forall l, l ∈ rows left -> length l = n) ->
  (forall l i, l ∈ rows left -> index_of key (columns left) = Some i -> is_Some (cell_at l i)) ->
  NoDup (rows out).
Proof.
  unfold merge. intros H HL HR Hlen Hkey.
  destruct (index_of key (columns left)) as [li|] eqn:Hli; [|discriminate].
  destruct (index_of key (columns right)) as [ri|] eqn:Hri; [|discriminate].
  injection H as <-. simpl.
  apply NoDup_bind; [| |exact HL].
  - intros l1 l2 b Hl1 Hl2 H1 H2.
    apply list_elem_of_bind in H1 as (r1 & H1 & _).
    apply list_elem_of_bind in H2 as (r2 & H2 & _).
    destruct (bool_decide (cell_at l1 li = cell_at r1 ri)); [|by apply elem_of_nil in H1].
    destruct (bool_decide (cell_at l2 li = cell_at r2 ri)); [|by apply elem_of_nil in H2].
    apply list_elem_of_singleton in H1, H2. subst b.
    apply app_inj_1 in H2 as [H2 _]; [done|].
    rewrite (Hlen l1), (Hlen l2); done.
  - intros l Hl. apply NoDup_bind; [| |exact HR].
    + intros r1 r2 b _ _ H1 H2.
      destruct (bool_decide_reflect (cell_at l li = cell_at r1 ri)) as [E1|_];
        [|by apply elem_of_nil in H1].
      destruct (bool_decide_reflect (cell_at l li = cell_at r2 ri)) as [E2|_];
        [|by apply elem_of_nil in H2].
      apply list_elem_of_singleton in H1, H2. subst b.
      apply app_inv_head in H2.
      apply (remove_nth_inj ri); [|congruence|exact H2].
      rewrite <- E1. by apply Hkey.
    + intros r _. case_bool_decide; [apply NoDup_singleton|constructor].
Qed.

(** ** predict_targets.py: the reference table *)

Ltac fresh_ne H :=
  let E := fresh in
  intros E; subst; rewrite ?lookup_insert_ne in H by done;
  rewrite lookup_insert_eq in H; discriminate.

Ltac solve_lookup :=
  repeat first [ rewrite lookup_insert_eq; reflexivity | rewrite lookup_insert_ne by done ].

Section ReferenceFacts.

Variable select_CTA_reference_dataset : Namespace -> DataFrame * string.
Variable gen_fps : Namespace -> DataFrame -> string -> outcome.

Local Abbreviation reference_table :=
  (PredictTargets.reference_table select_CTA_reference_dataset gen_fps).
Local Abbreviation reference_by_value :=
  (PredictTargets.reference_by_value select_CTA_reference_dataset gen_fps).

(** Lines 91-97 over the object store build the table of their by-value
    reading. *)
Lemma reference_refines args f h t :
  wp (reference_table args) (World f h t)
     (fun w' r =>
        match reference_by_value args with
        | inl e => r = inl e
        | inr (cta, CTA_id) => exists CTA, r = inr (CTA, CTA_id) /\ heap w' !! CTA = Some cta
        end).
Proof.
  unfold PredictTargets.reference_table, PredictTargets.reference_by_value.
  apply wp_bind, wp_emit.
  destruct (select_CTA_reference_dataset args) as [selected CTA_id].
  apply wp_bind. eapply (wp_alloc ∅); [apply map_empty_subseteq|]. intros l0 h0 _ HP0.
  apply wp_bind. eapply wp_derive; [exact HP0|by rewrite lookup_insert_eq|].
  destruct (getitem PredictTargets.reference_columns selected) as [e|picked]; [done|].
  intros l1 h1 Hl1 HP1.
  apply wp_bind. eapply wp_derive; [exact HP1|by rewrite lookup_insert_eq|]. simpl.
  intros l2 h2 Hl2 HP2.
  apply wp_bind. eapply wp_inplace; [exact HP2|by rewrite lookup_insert_eq|].
  intros h3 HP3. rewrite insert_insert_eq in HP3.
  set (CTA := dropna (drop_duplicates picked)) in *.
  apply wp_bind. eapply wp_derive; [exact HP3|by rewrite lookup_insert_eq|].
  destruct (getitem ["molregno"; "clean_smiles"] CTA) as [e|structures]; [done|].
  intros l4 h4 Hl4 HP4.
  assert (l4 <> l2) by fresh_ne Hl4.
  apply wp_bind. eapply wp_call; [exact HP4|by rewrite lookup_insert_eq|].
  intros l5 h5 Hl5 HP5. rewrite (insert_insert_eq _ l4) in HP5.
  assert (l5 <> l2) by (destruct Hl5 as [->|Hl5]; [done|fresh_ne Hl5]).
  set (o := gen_fps args structures "Reference") in *.
  apply wp_bind. eapply wp_derive; [exact HP5|by rewrite lookup_insert_eq|]. simpl.
  intros l6 h6 Hl6 HP6.
  assert (l6 <> l2) by fresh_ne Hl6.
  apply wp_bind. eapply wp_load; [exact HP6|solve_lookup|].
  apply wp_bind. eapply wp_load; [exact HP6|solve_lookup|].
  apply wp_bind, wp_lift.
  destruct (merge CTA (drop_duplicates (result_value o)) "molregno") as [e|merged]; [done|].
  apply wp_bind. eapply wp_alloc; [exact HP6|]. intros l7 h7 Hl7 HP7.
  apply wp_bind. eapply wp_inplace; [exact HP7|by rewrite lookup_insert_eq|].
  intros h8 HP8. apply wp_ret. exists l7. split; [reflexivity|].
  eapply lookup_weaken; [|exact HP8]. by rewrite lookup_insert_eq.
Qed.

(** The reference table has no row twice and no null cell. *)
Lemma reference_by_value_sound args cta CTA_id :
  reference_by_value args = inr (cta, CTA_id) ->
  NoDup (rows cta)
  /\ (forall r, r ∈ rows cta -> no_null (length (columns cta)) r = true)
  /\ (forall reference, getitem PredictTargets.search_columns cta = inr reference ->
      forall r, r ∈ rows reference -> Forall (fun c : cell => is_Some c) r).
Proof.
  unfold PredictTargets.reference_by_value.
  destruct (select_CTA_reference_dataset args) as [selected id].
  destruct (getitem PredictTargets.reference_columns selected) as [e|picked] eqn:Hpick;
    [discriminate|].
  set (CTA := dropna (drop_duplicates picked)).
  destruct (getitem ["molregno"; "clean_smiles"] CTA) as [e|structures]; [discriminate|].
  set (CTA_fps := drop_duplicates _).
  destruct (merge CTA CTA_fps "molregno") as [e|merged] eqn:Hmerge; [discriminate|].
  intros [= <- <-].
  apply getitem_spec in Hpick as [Hcols Hrows].
  assert (HCTA : forall l, l ∈ rows CTA -> length l = 4%nat /\ no_null 4 l = true).
  { intros l Hl. apply dropna_spec in Hl as [Hl Hnn].
    apply drop_duplicates_subset in Hl. simpl in Hnn. rewrite Hcols in Hnn.
    split; [|exact Hnn]. by apply Hrows. }
  split_and!.
  - apply dropna_NoDup. eapply (merge_NoDup CTA CTA_fps); [exact Hmerge| | | |].
    + apply dropna_NoDup, drop_duplicates_NoDup.
    + apply drop_duplicates_NoDup.
    + intros l Hl. by apply HCTA.
    + intros l i Hl Hi. simpl in Hi. rewrite Hcols in Hi. injection Hi as <-.
      eapply no_null_cell; [by apply HCTA|]. lia.
  - intros r Hr. apply dropna_spec in Hr as [_ Hr]. exact Hr.
  - intros reference Href. by eapply getitem_dropna_no_null.
Qed.
(** C5, as the code has it.  The reference table that lines 91-97 leave
    has no row twice (rows compared in all their columns: compound,
    structure, protein, target and what the fingerprints add) and no null
    in any column; so no cell of the frame selected for the similarity
    search, the fingerprint among them, is null. *)
Theorem reference_table_rows args w CTA CTA_id :
  (reference_table args w).2 = inr (CTA, CTA_id) ->
  exists cta,
    heap (reference_table args w).1 !! CTA = Some cta
    /\ NoDup (rows cta)
    /\ (forall r, r ∈ rows cta -> no_null (length (columns cta)) r = true)
    /\ (forall reference,
          getitem PredictTargets.search_columns cta = inr reference ->
          forall r, r ∈ rows reference -> Forall (fun c : cell => is_Some c) r).
Proof.
  intros Hr. destruct w as [f h t].
  pose proof (wp_run _ _ _ (reference_refines args f h t)) as H. simpl in H.
  destruct (reference_by_value args) as [e|[cta id]] eqn:Hv.
  - rewrite H in Hr. discriminate.
  - destruct H as (l & Hl & Hheap). rewrite Hl in Hr. injection Hr as <- <-.
    exists cta. split; [exact Hheap|]. eapply reference_by_value_sound. exact Hv.
Qed.

End ReferenceFacts.

(** ** Ranking: the scenario with targets T1, T2, T1 *)


(** ** Similarity: self-similarity and symmetry *)

Section TanimotoFacts.

Import Similarity.






End TanimotoFacts.




(** ** The properties on the small run *)

Lemma example_args_inputPath : Example.args !! "inputPath" = Some (VStr "input").
Proof. vm_compute. reflexivity. Qed.

Lemma example_ready_CTA files : heap (Example.ready files) !! 0%nat = Some Example.CTA.
Proof. apply lookup_singleton_eq. Qed.

(** Three lists are asked for and the file of the second is absent: the
    first list is read and ranked, the third is not, though its file is
    there. *)
Lemma missing_file_leaves_later_list_out :
  let r := Example.main [] (initial Example.two_of_three) in
  "input/QueryList3_smiles.csv" ∈ Example.two_of_three
  /\ files_read (trace r.1) = ["input/QueryList1_smiles.csv"]
  /\ ranked_to (trace r.1)
     = ["output/potential_targets/QueryList1_using_dataset_id_7_include_with_k_value_of"]
  /\ r.2 = inr tt.
Proof.
  split; [apply (bool_decide_unpack _); vm_compute; exact I|].
  repeat split; vm_compute; reflexivity.
Qed.

Lemma missing_file_ends_loop_witness :
  Example.loop Example.args 0 "7" ["QueryList2"; "QueryList3"]
    (Example.ready Example.two_of_three)
  = (World Example.two_of_three {[ 0%nat := Example.CTA ]}
       [ Print Log (PredictTargets.banner "QueryList2");
         Print Stdout "Error, file not found input/QueryList2_smiles.csv";
         Print Stdout ("It must be a csv file which contains smiles strings in a column named "
                       +:+ "'smiles' and compound id in a column named 'np_id'") ],
     inr tt).
Proof.
  apply (missing_file_ends_loop Example.gen_fps Example.preprocess_Query_SMILES
           Example.Query_conductSS Example.read_csv Example.args 0 "7" "QueryList2"
           ["QueryList3"] (Example.ready Example.two_of_three) "input").
  - exact example_args_inputPath.
  - apply (bool_decide_unpack _). vm_compute. exact I.
Defined.

Lemma example_generate_maccs :
  let ns := Example.parsed (GenerateCTA.parse_args Example.maccs_512) in
  GenerateCTA.parse_args Example.maccs_512 = inr ns
  /\ ns !! "fingerprint" = Some (VStr "maccs").
Proof. split; vm_compute; reflexivity. Qed.

Lemma example_predict_maccs :
  let ns := Example.parsed (PredictTargets.parse_args Example.maccs_512) in
  PredictTargets.parse_args Example.maccs_512 = inr ns
  /\ ns !! "fingerprint" = Some (VStr "maccs").
Proof. split; vm_compute; reflexivity. Qed.

Lemma fingerprint_scheme_overrides_witness :
  (exists after dir,
      Call_createCTA after dir ∈ trace (GenerateCTA.main Example.maccs_512 (initial ∅)).1
      /\ after !! "nBits" = Some (VInt 116) /\ after !! "radius" = Some VNone)
  /\ (exists after,
      Call_select_CTA_reference_dataset after
        ∈ trace (Example.main Example.maccs_512 (initial ∅)).1
      /\ after !! "nBits" = Some (VInt 116) /\ after !! "radius" = Some VNone).
Proof.
  destruct (fingerprint_scheme_overrides Example.assert_query_resource_files
              Example.select_CTA_reference_dataset Example.gen_fps
              Example.preprocess_Query_SMILES Example.Query_conductSS Example.read_csv)
    as [Hgenerate Hpredict].
  split.
  - destruct example_generate_maccs as [Hp Hfp].
    destruct (Hgenerate _ ∅ _ Hp) as (after & dir & Hin & Hmaccs & _).
    exists after, dir. split; [exact Hin|]. exact (Hmaccs Hfp).
  - destruct example_predict_maccs as [Hp Hfp].
    destruct (Hpredict _ ∅ _ Hp) as (after & Hin & Hmaccs & _).
    { intros present. eexists. reflexivity. }
    exists after. split; [exact Hin|]. exact (Hmaccs Hfp).
Defined.

(** The frame that the search is handed in the example holds the pair
    (compound 1, CHEMBL100) twice, once for each protein of the target. *)
Lemma reference_table_repeats_pair :
  let r := Example.reference_table Example.args (initial ∅) in
  exists CTA cta reference,
    r.2 = inr (CTA, "7") /\ heap r.1 !! CTA = Some cta
    /\ getitem PredictTargets.search_columns cta = inr reference
    /\ ~ NoDup (compound_target_pairs reference).
Proof.
  exists 6%nat. eexists. eexists. split; [vm_compute; reflexivity|].
  split; [vm_compute; reflexivity|]. split; [vm_compute; reflexivity|].
  vm_compute. intros H. apply NoDup_cons in H as [H _]. apply H, list_elem_of_here.
Qed.

Lemma reference_table_rows_witness :
  exists cta,
    heap (Example.reference_table Example.args (initial ∅)).1 !! 6%nat = Some cta
    /\ NoDup (rows cta)
    /\ (forall r, r ∈ rows cta -> no_null (length (columns cta)) r = true)
    /\ (forall reference,
          getitem PredictTargets.search_columns cta = inr reference ->
          forall r, r ∈ rows reference -> Forall (fun c : cell => is_Some c) r).
Proof.
  apply (reference_table_rows Example.select_CTA_reference_dataset Example.gen_fps
           Example.args (initial ∅) 6%nat "7").
  vm_compute. reflexivity.
Defined.

Lemma empty_search_no_output_witness :
  let w := Example.ready {[ "input/Empty_smiles.csv" ]} in
  (Example.pass Example.args 0 "7" "Empty" w).2 = inr PredictTargets.Continue
  /\ (forall e, e ∈ new_events w (Example.pass Example.args 0 "7" "Empty" w).1 ->
       (forall p, e <> Makedirs p) /\ (forall a found p, e <> Call_rankTargets a found p))
  /\ Example.loop Example.args 0 "7" ["Empty"; "QueryList1"] w
     = Example.loop Example.args 0 "7" ["QueryList1"]
         (Example.pass Example.args 0 "7" "Empty" w).1.
Proof.
  apply (empty_search_no_output Example.gen_fps Example.preprocess_Query_SMILES
           Example.Query_conductSS Example.read_csv Example.args 0 "7" "Empty"
           ["QueryList1"] (Example.ready {[ "input/Empty_smiles.csv" ]}) Example.CTA
           Example.no_query Example.reference).
  - apply example_ready_CTA.
  - vm_compute. repeat first [ apply list_elem_of_here | apply list_elem_of_further ].
  - vm_compute. reflexivity.
Defined.




Lemma reference_read_only_witness :
  heap (Example.loop Example.args 0 "7" ["QueryList1"; "QueryList2"; "QueryList3"]
          (Example.ready Example.two_of_three)).1 !! 0%nat
  = Some Example.CTA.
Proof.
  exact (proj1 (reference_read_only Example.gen_fps Example.preprocess_Query_SMILES
                  Example.Query_conductSS Example.read_csv Example.args 0 "7"
                  ["QueryList1"; "QueryList2"; "QueryList3"]
                  (Example.ready Example.two_of_three) Example.CTA
                  (example_ready_CTA Example.two_of_three))).
Defined.



(* ===================================================================== *)
(** * Further properties *)
(* ===================================================================== *)

(** ** Parsing: what is stored, and what is refused *)

Lemma consume_stores specs (P : Namespace -> Prop) :
  (forall ns a v, P ns -> a ∈ specs -> stored_of_words a v -> P (<[dest a := v]> ns)) ->
  forall st item st', P st.1 -> consume specs st item = inr st' -> P st'.1.
Proof.
  intros Hstep [ns extras] [f ws] st' HP. unfold consume. simpl in HP.
  destruct (find_argument specs f) as [a|] eqn:Hfind.
  - apply find_argument_elem in Hfind as [Hin _].
    destruct (action_ a) eqn:Hact.
    + destruct (nargs a) eqn:Hn.
      * destruct ws as [|w rest]; [discriminate|].
        destruct (convert a w) as [e|v] eqn:Hc; [discriminate|].
        intros [= <-]. simpl. apply Hstep; auto. right; left. eauto.
      * destruct (convert_all a ws) as [e|vs] eqn:Hc; [discriminate|].
        intros [= <-]. simpl. apply Hstep; auto. right; right. eauto 6.
    + intros [= <-]. simpl. apply Hstep; auto. left. auto.
  - intros [= <-]. exact HP.
Qed.

Lemma consume_all_stores specs (P : Namespace -> Prop) :
  (forall ns a v, P ns -> a ∈ specs -> stored_of_words a v -> P (<[dest a := v]> ns)) ->
  forall argv st st', P st.1 -> consume_all specs st argv = inr st' -> P st'.1.
Proof.
  intros Hstep argv. induction argv as [|item argv IH]; intros st st' HP; simpl.
  - intros [= <-]. exact HP.
  - destruct (consume specs st item) as [e|st1] eqn:Hc; [discriminate|].
    apply IH. eapply consume_stores; eauto.
Qed.

Lemma parse_stores specs (P : Namespace -> Prop) argv ns :
  (forall ns a v, P ns -> a ∈ specs -> stored_of_words a v -> P (<[dest a := v]> ns)) ->
  P (defaults specs) ->
  parse specs argv = inr ns -> P ns.
Proof.
  intros Hstep H0. unfold parse.
  destruct (consume_all specs (defaults specs, []) argv) as [e|[ns' extras]] eqn:Hc;
    [discriminate|].
  destruct extras; [|discriminate]. intros [= <-].
  exact (consume_all_stores specs P Hstep argv (defaults specs, []) (ns', []) H0 Hc).
Qed.

(** An option that the command line does not give keeps its default. *)
Lemma consume_all_keeps specs d x argv :
  (forall f ws a, (f, ws) ∈ argv -> find_argument specs f = Some a -> dest a <> d) ->
  forall st st', st.1 !! d = x -> consume_all specs st argv = inr st' -> st'.1 !! d = x.
Proof.
  induction argv as [|item argv IH]; intros Hout st st' Hst; simpl.
  - by intros [= <-].
  - destruct (consume specs st item) as [e|st1] eqn:Hc; [discriminate|].
    apply IH.
    + intros f ws a Hin. apply (Hout f ws a). by apply list_elem_of_further.
    + destruct st as [ns extras], item as [f ws]. unfold consume in Hc. simpl in Hst.
      destruct (find_argument specs f) as [a|] eqn:Hfind.
      * assert (Hne : dest a <> d) by (eapply Hout; [apply list_elem_of_here|exact Hfind]).
        destruct (action_ a).
        -- destruct (nargs a).
           ++ destruct ws as [|w rest]; [discriminate|].
              destruct (convert a w); [discriminate|]. injection Hc as <-. simpl.
              by rewrite lookup_insert_ne.
           ++ destruct (convert_all a ws); [discriminate|]. injection Hc as <-. simpl.
              by rewrite lookup_insert_ne.
        -- injection Hc as <-. simpl. by rewrite lookup_insert_ne.
      * injection Hc as <-. exact Hst.
Qed.

Lemma parse_keeps_default specs d argv ns :
  (forall f ws a, (f, ws) ∈ argv -> find_argument specs f = Some a -> dest a <> d) ->
  parse specs argv = inr ns -> ns !! d = defaults specs !! d.
Proof.
  intros Hout. unfold parse.
  destruct (consume_all specs (defaults specs, []) argv) as [e|[ns' extras]] eqn:Hc;
    [discriminate|].
  destruct extras; [|discriminate]. intros [= <-].
  exact (consume_all_keeps specs d _ argv Hout (defaults specs, []) (ns', []) eq_refl Hc).
Qed.






Lemma convert_all_py_int a ws vs :
  type_ a = py_int -> convert_all a ws = inr vs -> exists zs, vs = VInt <$> zs.
Proof.
  intros Hty. revert vs. induction ws as [|w ws IH]; intros vs; simpl.
  - intros [= <-]. by exists [].
  - destruct (convert a w) as [e|v] eqn:Hc; [discriminate|].
    destruct (convert_all a ws) as [e|vs']; [discriminate|]. intros [= <-].
    destruct (IH vs' eq_refl) as [zs ->].
    unfold convert in Hc. rewrite Hty in Hc. unfold py_int in Hc.
    destruct (reads_as w) as [z| |]; try discriminate.
    assert (v = VInt z) as -> by (destruct (choices a) as [cs|];
      [destruct (py_in (VInt z) cs)|]; congruence).
    by exists (z :: zs).
Qed.

Ltac stored_of_words_cases H :=
  destruct H as [[? ?]|[(? & ? & [? H])|(? & ? & (? & ? & H & ?))]]; try discriminate.

Lemma scheme_options_step specs :
  (specs = GenerateCTA.arguments \/ specs = PredictTargets.arguments) ->
  forall ns a v, scheme_options ns -> a ∈ specs -> stored_of_words a v ->
                 scheme_options (<[dest a := v]> ns).
Proof.
  intros Hspecs ns a v (Hf & Hr & Hj & Hv & Ho) Ha Hst.
  destruct Hspecs as [-> | ->]; each_argument Ha; simpl; unfold scheme_options;
    rewrite ?lookup_insert_eq, ?lookup_insert_ne by done;
    stored_of_words_cases Hst; subst; try (split_and!; eauto; fail).
  all: unfold convert in Hst; simpl in Hst.
  all: try (unfold py_int in Hst; destruct (reads_as _) as [z| |]; try discriminate;
            simpl in Hst).
  all: try (injection Hst as <-; split_and!; eauto; fail).
  all: repeat match type of Hst with
              | context [String.eqb ?a ?b] =>
                  destruct (String.eqb_spec a b) as [E|?]; [rewrite ?E in Hst|]; simpl in Hst
              | context [Z.eqb ?a ?b] =>
                  destruct (Z.eqb_spec a b) as [E|?]; [rewrite ?E in Hst|]; simpl in Hst
              end; try discriminate.
  all: injection Hst as <-; split_and!; eauto.
  all: eexists; split; [reflexivity|set_solver].
Qed.

(** X1.  Whatever the command line, the namespace that [parse_args] of
    [generate_CTA.py] or of [predict_targets.py] returns holds one of the
    four fingerprint schemes, a radius of 2 or 3, an integer [n_jobs], a
    Boolean [verbose] and a string [outputPath]. *)
Theorem parsed_scheme_options argv ns :
  GenerateCTA.parse_args argv = inr ns \/ PredictTargets.parse_args argv = inr ns ->
  scheme_options ns.
Proof.
  intros [H|H]; revert H; apply parse_stores.
  - apply scheme_options_step. by left.
  - unfold scheme_options. simpl. split_and!; eauto.
    eexists. split; [reflexivity|]. set_solver.
  - apply scheme_options_step. by right.
  - unfold scheme_options. simpl. split_and!; eauto.
    eexists. split; [reflexivity|]. set_solver.
Qed.

Lemma top_k_list_step ns a v :
  top_k_list ns -> a ∈ PredictTargets.arguments -> stored_of_words a v ->
  top_k_list (<[dest a := v]> ns).
Proof.
  intros Hk Ha Hst. unfold top_k_list.
  each_argument Ha; simpl; rewrite ?lookup_insert_eq, ?lookup_insert_ne by done; try done.
  stored_of_words_cases Hst. subst.
  apply convert_all_py_int in Hst as [zs ->]; [eauto|reflexivity].
Qed.

Lemma consume_all_top_k ws argv :
  ("--k", ws) ∈ argv ->
  forall st st', consume_all PredictTargets.arguments st argv = inr st' -> top_k_list st'.1.
Proof.
  induction argv as [|item argv IH]; intros Hin st st'; [by apply elem_of_nil in Hin|].
  simpl. destruct (consume PredictTargets.arguments st item) as [e|st1] eqn:Hc; [discriminate|].
  apply elem_of_cons in Hin as [<-|Hin]; [|by apply IH].
  apply consume_all_stores; [intros; by apply top_k_list_step|].
  destruct st as [ns extras]. unfold consume in Hc.
  change (find_argument PredictTargets.arguments "--k")
    with (Some (Argument "--k" "top_k" Store py_int Star (VInt 1) None)) in Hc.
  simpl in Hc.
  destruct (convert_all _ ws) as [e|vs] eqn:Hall; [discriminate|]. injection Hc as <-.
  apply convert_all_py_int in Hall as [zs ->]; [|reflexivity].
  exists zs. simpl. by rewrite lookup_insert_eq.
Qed.

(** X2.  [args.top_k] of [predict_targets.py] is the integer 1 exactly when
    the command line has no [--k]; with [--k], also with no word after it,
    it is a list of integers. *)
Theorem top_k_int_or_list argv ns :
  PredictTargets.parse_args argv = inr ns ->
  ((forall ws, ("--k", ws) ∉ argv) -> ns !! "top_k" = Some (VInt 1))
  /\ (forall ws, ("--k", ws) ∈ argv -> top_k_list ns).
Proof.
  intros Hparse. split.
  - intros Hout.
    rewrite (parse_keeps_default PredictTargets.arguments "top_k" argv ns);
      [reflexivity| |exact Hparse].
    intros f ws a Hin Hfind Hd. apply find_argument_elem in Hfind as [Ha <-].
    each_argument Ha; try discriminate. by apply (Hout ws).
  - intros ws Hin. unfold PredictTargets.parse_args, parse in Hparse.
    destruct (consume_all _ _ argv) as [e|[ns' extras]] eqn:Hc; [discriminate|].
    destruct extras; [|discriminate]. injection Hparse as <-.
    exact (consume_all_top_k ws argv Hin _ _ Hc).
Qed.

Section Rejections.

Variable assert_query_resource_files : gset string -> Namespace -> option (list string).
Variable select_CTA_reference_dataset : Namespace -> DataFrame * string.
Variable gen_fps : Namespace -> DataFrame -> string -> outcome.
Variable preprocess_Query_SMILES : Namespace -> DataFrame -> outcome.
Variable Query_conductSS : Namespace -> DataFrame -> DataFrame -> DataFrame.
Variable read_csv : string -> DataFrame.

Local Abbreviation predict_main :=
  (PredictTargets.main assert_query_resource_files select_CTA_reference_dataset gen_fps
     preprocess_Query_SMILES Query_conductSS read_csv).



End Rejections.

(** ** Whole runs of generate_CTA.py and update_chembl_np.py *)

Lemma wp_result {A} (m : M A) w x : wp m w (fun w' r => (w', r) = x) -> m w = x.
Proof. intros H. apply wp_run in H. by destruct (m w). Qed.

Lemma generate_run argv files ns d v :
  GenerateCTA.parse_args argv = inr ns ->
  ns !! "outputPath" = Some (VStr d) ->
  ns !! "fingerprint" = Some v ->
  let dir := join d "CTA_datasets/" in
  let log := join d "generate_CTA_log.txt" in
  let after :=
    if py_in v [VStr "avalon"; VStr "maccs"] then
      if value_eqb v (VStr "maccs")
      then <["nBits" := VInt 116]> (<["radius" := VNone]> ns)
      else <["radius" := VNone]> ns
    else ns in
  GenerateCTA.main argv (initial files)
  = (World
       ({[dir]} ∪ ({[log]} ∪ (if bool_decide (d ∈ files) then files else {[d]} ∪ files)))
       ∅
       ((if bool_decide (d ∈ files) then [] else [Makedirs d])
        ++ [ OpenAppend log; Print Log nl; PrintArgv Log; PrintTime Log "Start time: ";
             Makedirs dir; Call_createCTA after dir;
             PrintTime Log (nl +:+ "Finish time: "); CloseLog ]),
     inr tt).
Proof.
  intros Hparse Hd Hv dir log after.
  apply wp_result. unfold GenerateCTA.main, initial, print.
  apply wp_bind. rewrite Hparse. apply wp_ret.
  run. case_bool_decide; simpl; run; reflexivity.
Qed.







Section Defaults.

Variable assert_query_resource_files : gset string -> Namespace -> option (list string).
Variable select_CTA_reference_dataset : Namespace -> DataFrame * string.
Variable gen_fps : Namespace -> DataFrame -> string -> outcome.
Variable preprocess_Query_SMILES : Namespace -> DataFrame -> outcome.
Variable Query_conductSS : Namespace -> DataFrame -> DataFrame -> DataFrame.
Variable read_csv : string -> DataFrame.

Local Abbreviation predict_main :=
  (PredictTargets.main assert_query_resource_files select_CTA_reference_dataset gen_fps
     preprocess_Query_SMILES Query_conductSS read_csv).

Lemma no_fingerprint_option specs (argv : list (string * list word)) :
  (specs = GenerateCTA.arguments \/ specs = PredictTargets.arguments) ->
  (forall ws, ("--fingerprint", ws) ∉ argv) ->
  forall f ws a, (f, ws) ∈ argv -> find_argument specs f = Some a -> dest a <> "fingerprint".
Proof.
  intros Hspecs Hout f ws a Hin Hfind Hd. apply find_argument_elem in Hfind as [Ha <-].
  destruct Hspecs as [-> | ->]; each_argument Ha; try discriminate; by apply (Hout ws).
Qed.

(** X9.  On a command line without [--fingerprint] the two scripts differ:
    [generate_CTA.py] builds under maccs, so [createCTA] gets 116 bits and
    no radius whatever [--nBits] and [--radius] say, while
    [predict_targets.py] searches under ecfp with the bits and the radius
    as parsed. *)
Theorem default_schemes_differ (argv : list (string * list word)) files :
  (forall ws, ("--fingerprint", ws) ∉ argv) ->
  (forall ns,
      GenerateCTA.parse_args argv = inr ns ->
      exists after dir,
        Call_createCTA after dir ∈ trace (GenerateCTA.main argv (initial files)).1
        /\ after !! "fingerprint" = Some (VStr "maccs")
        /\ after !! "nBits" = Some (VInt 116) /\ after !! "radius" = Some VNone)
  /\ (forall ns,
      PredictTargets.parse_args argv = inr ns ->
      (forall present, is_Some (assert_query_resource_files present ns)) ->
      exists after,
        Call_select_CTA_reference_dataset after ∈ trace (predict_main argv (initial files)).1
        /\ after !! "fingerprint" = Some (VStr "ecfp")
        /\ after !! "nBits" = ns !! "nBits" /\ after !! "radius" = ns !! "radius").
Proof.
  intros Hout. split.
  - intros ns Hparse.
    destruct (generate_outputPath_str argv ns Hparse) as [d Hd].
    assert (Hv : ns !! "fingerprint" = Some (VStr "maccs")).
    { rewrite (parse_keeps_default GenerateCTA.arguments "fingerprint" argv ns);
        [reflexivity| |exact Hparse].
      apply no_fingerprint_option; auto. }
    rewrite (generate_run argv files ns d _ Hparse Hd Hv). simpl.
    eexists _, _. split; [apply elem_of_app; right; find_event|].
    split_and!; [|by rewrite lookup_insert_eq|];
      rewrite lookup_insert_ne by done; [by rewrite lookup_insert_ne|by rewrite lookup_insert_eq].
  - intros ns Hparse Hassert.
    destruct (predict_outputPath_str argv ns Hparse) as [d Hd].
    assert (Hv : ns !! "fingerprint" = Some (VStr "ecfp")).
    { rewrite (parse_keeps_default PredictTargets.arguments "fingerprint" argv ns);
        [reflexivity| |exact Hparse].
      apply no_fingerprint_option; auto. }
    apply (wp_run (predict_main argv) (initial files)
             (fun w' _ => exists after,
                  Call_select_CTA_reference_dataset after ∈ trace w'
                  /\ after !! "fingerprint" = Some (VStr "ecfp")
                  /\ after !! "nBits" = ns !! "nBits" /\ after !! "radius" = ns !! "radius")).
    unfold PredictTargets.main, initial, print.
    apply wp_bind. rewrite Hparse. apply wp_ret.
    run. case_bool_decide; simpl; run.
    all: apply run_wp; simpl.
    all: match goal with |- context [assert_query_resource_files ?p _] =>
           destruct (Hassert p) as [names ->] end.
    all: apply wp_bind; eapply wp_getattr; [by rewrite lookup_insert_ne|].
    all: unfold PredictTargets.reference_table at 1.
    all: apply wp_bind_bind, wp_bind, wp_emit.
    all: apply (wp_of_grows _ _ (fun t' => exists after,
                  Call_select_CTA_reference_dataset after ∈ t'
                  /\ after !! "fingerprint" = Some (VStr "ecfp")
                  /\ after !! "nBits" = ns !! "nBits" /\ after !! "radius" = ns !! "radius")).
    all: try (intros t' [k ->]; eexists; split;
              [apply elem_of_app; left; find_event
              |simpl; rewrite !lookup_insert_ne by done; auto]).
    all: repeat first
           [ apply grows_derive | apply grows_call | apply grows_loop | apply grows_iterate
           | grows_step ].
Qed.


End Defaults.

(** ** predict_targets.py: what the loop reads, searches and ranks *)

Lemma new_events_app w w' evs : trace w' = trace w ++ evs -> new_events w w' = evs.
Proof. intros H. unfold new_events. rewrite H. apply drop_app_length. Qed.

Lemma new_events_trans w w1 w2 :
  trace w `prefix_of` trace w1 -> trace w1 `prefix_of` trace w2 ->
  new_events w w2 = new_events w w1 ++ new_events w1 w2.
Proof.
  intros [k1 H1] [k2 H2]. rewrite (new_events_app w w1 k1 H1), (new_events_app w1 w2 k2 H2).
  apply new_events_app. by rewrite H2, H1, app_assoc.
Qed.

Section LoopFacts.

Variable gen_fps : Namespace -> DataFrame -> string -> outcome.
Variable preprocess_Query_SMILES : Namespace -> DataFrame -> outcome.
Variable Query_conductSS : Namespace -> DataFrame -> DataFrame -> DataFrame.
Variable read_csv : string -> DataFrame.

Local Abbreviation pass :=
  (PredictTargets.pass gen_fps preprocess_Query_SMILES Query_conductSS read_csv).
Local Abbreviation pass_by_value :=
  (PredictTargets.pass_by_value gen_fps preprocess_Query_SMILES Query_conductSS read_csv).
Local Abbreviation loop :=
  (PredictTargets.loop gen_fps preprocess_Query_SMILES Query_conductSS read_csv).

(** The loop unfolded by one pass, with the pass read by value. *)
Lemma loop_step args CTA CTA_id db rest w cta :
  heap w !! CTA = Some cta ->
  let w1 := (pass args CTA CTA_id db w).1 in
  let v := pass_by_value args cta CTA_id (fun p => bool_decide (p ∈ fs w)) db in
  trace w1 = trace w ++ v.1 /\ heap w1 !! CTA = Some cta /\ fs w ⊆ fs w1
  /\ loop args CTA CTA_id (db :: rest) w
     = match v.2 with
       | inl e => (w1, inl e)
       | inr PredictTargets.Break => (w1, inr tt)
       | inr PredictTargets.Continue => loop args CTA CTA_id rest w1
       end.
Proof.
  intros H. destruct (pass_by_value_spec gen_fps preprocess_Query_SMILES Query_conductSS read_csv
                        args CTA CTA_id db w cta H) as (Ht & Hr & Hh & Hf).
  split_and!; [exact Ht|exact Hh|exact Hf|].
  simpl. unfold bind. destruct (pass args CTA CTA_id db w) as [w1 r1]. simpl in *.
  rewrite <- Hr. destruct r1 as [e|[]]; reflexivity.
Qed.

(** What holds of every event of every pass holds of every event that the
    loop adds. *)
Lemma loop_events args CTA CTA_id cta (good : string -> event -> Prop) :
  (forall db exist e, e ∈ (pass_by_value args cta CTA_id exist db).1 -> good db e) ->
  forall names w, heap w !! CTA = Some cta ->
  forall e, e ∈ new_events w (loop args CTA CTA_id names w).1 ->
            exists db, db ∈ names /\ good db e.
Proof.
  intros Hgood names. induction names as [|db rest IH]; intros w H e.
  - simpl. unfold new_events. rewrite drop_all. intros He. by apply elem_of_nil in He.
  - destruct (loop_step args CTA CTA_id db rest w cta H) as (Ht & Hh & _ & Hloop).
    rewrite Hloop. clear Hloop.
    set (v := pass_by_value args cta CTA_id _ db) in *.
    set (w1 := (pass args CTA CTA_id db w).1) in *.
    assert (Hhere : forall e, e ∈ v.1 -> exists db', db' ∈ db :: rest /\ good db' e).
    { intros e' He'. exists db. split; [apply list_elem_of_here|]. eapply Hgood. exact He'. }
    destruct (v.2) as [x|[]]; simpl.
    + rewrite (new_events_app _ _ _ Ht). apply Hhere.
    + rewrite (new_events_trans w w1).
      * rewrite (new_events_app _ _ _ Ht). intros He. apply elem_of_app in He as [He|He].
        -- by apply Hhere.
        -- destruct (IH w1 Hh e He) as (db' & Hin & Hg).
           exists db'. split; [by apply list_elem_of_further|exact Hg].
      * rewrite Ht. by apply prefix_app_r.
      * apply grows_loop.
    + rewrite (new_events_app _ _ _ Ht). apply Hhere.
Qed.

Lemma pass_by_value_reads args cta CTA_id exist db inputPath :
  args !! "inputPath" = Some (VStr inputPath) ->
  let v := pass_by_value args cta CTA_id exist db in
  if exist (smiles_file inputPath db)
  then files_read v.1 = [smiles_file inputPath db] /\ v.2 <> inr PredictTargets.Break
  else files_read v.1 = [] /\ v.2 = inr PredictTargets.Break.
Proof.
  intros Hin. unfold PredictTargets.pass_by_value, smiles_file. rewrite Hin.
  destruct (exist _); simpl; [|done].
  unfold PredictTargets.search_by_value.
  destruct (getitem ["np_id"; "fp"] _) as [e|q]; [done|].
  destruct (getitem PredictTargets.search_columns cta) as [e|r]; [done|].
  unfold PredictTargets.report_by_value.
  destruct (0 <? len _)%nat; [|simpl; done].
  destruct (args !! "outputPath") as [[| | | |outputPath|]|]; simpl; done.
Qed.

(** X11.  The loop reads the files of the query lists in the order of the
    lists, each list's file once, and stops reading at some point of the
    list: what it reads is an initial part of the files asked for.  When
    every file is there and the loop ends without an exception, every
    file has been read. *)
Theorem lists_read_in_order args CTA CTA_id names w cta inputPath :
  args !! "inputPath" = Some (VStr inputPath) ->
  heap w !! CTA = Some cta ->
  let r := loop args CTA CTA_id names w in
  let paths := smiles_file inputPath <$> names in
  files_read (new_events w r.1) `prefix_of` paths
  /\ ((forall p, p ∈ paths -> p ∈ fs w) -> r.2 = inr tt ->
      files_read (new_events w r.1) = paths).
Proof.
  intros Hin. revert w. induction names as [|db rest IH]; intros w H.
  - simpl. unfold new_events. rewrite drop_all. done.
  - destruct (loop_step args CTA CTA_id db rest w cta H) as (Ht & Hh & Hfs & Hloop).
    pose proof (pass_by_value_reads args cta CTA_id (fun p => bool_decide (p ∈ fs w)) db
                  inputPath Hin) as Hv.
    simpl. simpl in Hloop. rewrite Hloop. clear Hloop.
    set (v := pass_by_value args cta CTA_id _ db) in *.
    set (w1 := (pass args CTA CTA_id db w).1) in *.
    simpl in Hv. case_bool_decide as Hthere.
    + destruct Hv as [Hread Hnb]. destruct (v.2) as [x|[]]; simpl.
      * rewrite (new_events_app _ _ _ Ht), Hread.
        split; [apply prefix_cons, prefix_nil|discriminate].
      * destruct (IH w1 Hh) as [IH1 IH2].
        rewrite (new_events_trans w w1);
          [|rewrite Ht; by apply prefix_app_r|apply grows_loop].
        rewrite (new_events_app _ _ _ Ht). unfold files_read in *. rewrite omap_app, Hread.
        split; [simpl; apply prefix_cons, IH1|].
        intros Hall Hr. simpl. f_equal. apply IH2; [|exact Hr].
        intros p Hp. apply Hfs, Hall. by apply list_elem_of_further.
      * done.
    + destruct Hv as [Hread ->]. simpl. rewrite (new_events_app _ _ _ Ht), Hread.
      split; [apply prefix_nil|]. intros Hall _. exfalso. apply Hthere, Hall.
      apply list_elem_of_here.
Qed.

Lemma pass_by_value_calls args cta CTA_id exist db e :
  e ∈ (pass_by_value args cta CTA_id exist db).1 ->
  match e with
  | Call_Query_conductSS a q r =>
      a = args /\ columns q = ["np_id"; "fp"]
      /\ getitem PredictTargets.search_columns cta = inr r
  | Call_rankTargets a found p =>
      a = args /\ (0 < len found)%nat
      /\ exists outputPath,
           args !! "outputPath" = Some (VStr outputPath)
           /\ p = potential_targets_path outputPath db CTA_id
  | Call_gen_fps a _ kind => a = args /\ kind = "Query"
  | Call_preprocess_Query_SMILES a _ => a = args
  | Makedirs p =>
      exists outputPath, args !! "outputPath" = Some (VStr outputPath)
                         /\ p = join outputPath "potential_targets/"
  | Print _ _ | ReadCsv _ | GcCollect => True
  | _ => False
  end.
Proof.
  unfold PredictTargets.pass_by_value.
  destruct (args !! "inputPath") as [[| | | |inputPath|]|]; simpl;
    try (intros Hin; set_unfold; destruct_or?; subst; done).
  destruct (negb _); simpl; [intros Hin; set_unfold; destruct_or?; subst; done|].
  unfold PredictTargets.search_by_value.
  destruct (getitem ["np_id"; "fp"] _) as [x|q] eqn:Hq;
    [intros Hin; set_unfold; destruct_or?; subst; done|].
  destruct (getitem PredictTargets.search_columns cta) as [x|r] eqn:Hr;
    [intros Hin; set_unfold; destruct_or?; subst; done|].
  apply getitem_spec in Hq as [Hq _].
  unfold PredictTargets.report_by_value.
  destruct (0 <? len _)%nat eqn:Hpos; [|simpl; intros Hin; set_unfold; destruct_or?; subst; done].
  apply Nat.ltb_lt in Hpos.
  destruct (args !! "outputPath") as [[| | | |outputPath|]|]; simpl;
    intros Hin; set_unfold; destruct_or?; subst; try done.
  all: eauto.
Qed.

End LoopFacts.

Section LoopCalls.

Variable gen_fps : Namespace -> DataFrame -> string -> outcome.
Variable preprocess_Query_SMILES : Namespace -> DataFrame -> outcome.
Variable Query_conductSS : Namespace -> DataFrame -> DataFrame -> DataFrame.
Variable read_csv : string -> DataFrame.

Local Abbreviation pass_by_value :=
  (PredictTargets.pass_by_value gen_fps preprocess_Query_SMILES Query_conductSS read_csv).
Local Abbreviation loop :=
  (PredictTargets.loop gen_fps preprocess_Query_SMILES Query_conductSS read_csv).

(** X12.  Every similarity search of the loop is handed the namespace of
    the run, a query frame with the columns [np_id] and [fp], and the same
    reference: the four search columns of the reference table as the loop
    found it. *)
Theorem every_search_uses_the_reference args CTA CTA_id names w cta a query reference :
  heap w !! CTA = Some cta ->
  Call_Query_conductSS a query reference ∈ new_events w (loop args CTA CTA_id names w).1 ->
  a = args /\ columns query = ["np_id"; "fp"]
  /\ getitem PredictTargets.search_columns cta = inr reference
  /\ columns reference = PredictTargets.search_columns.
Proof.
  intros H Hin.
  destruct (loop_events gen_fps preprocess_Query_SMILES Query_conductSS read_csv
              args CTA CTA_id cta
              (fun _ e => match e with
                          | Call_Query_conductSS a q r =>
                              a = args /\ columns q = ["np_id"; "fp"]
                              /\ getitem PredictTargets.search_columns cta = inr r
                          | _ => True
                          end)) with names w (Call_Query_conductSS a query reference)
    as (db & _ & Ha & Hq & Hr); [|exact H|exact Hin|].
  - intros db exist e He.
    pose proof (pass_by_value_calls gen_fps preprocess_Query_SMILES Query_conductSS read_csv
                  args cta CTA_id exist db e He) as Hc.
    destruct e; auto.
  - split_and!; [exact Ha|exact Hq|exact Hr|]. by apply getitem_spec in Hr as [Hr _].
Qed.

(** X13.  The loop calls [rankTargets] only with a search result that has
    rows, and with the path [potential_targets/] under the output path,
    named after one of the lists asked for and the id of the reference
    dataset; the only directory the loop creates is that one. *)
Theorem rankings_go_to_potential_targets args CTA CTA_id names w cta :
  heap w !! CTA = Some cta ->
  let added := new_events w (loop args CTA CTA_id names w).1 in
  (forall a found p, Call_rankTargets a found p ∈ added ->
     a = args /\ (0 < len found)%nat
     /\ exists db_name outputPath,
          db_name ∈ names /\ args !! "outputPath" = Some (VStr outputPath)
          /\ p = potential_targets_path outputPath db_name CTA_id)
  /\ (forall p, Makedirs p ∈ added ->
        exists outputPath, args !! "outputPath" = Some (VStr outputPath)
                           /\ p = join outputPath "potential_targets/").
Proof.
  intros H added.
  pose proof (loop_events gen_fps preprocess_Query_SMILES Query_conductSS read_csv
                args CTA CTA_id cta
                (fun db e => match e with
                             | Call_rankTargets a found p =>
                                 a = args /\ (0 < len found)%nat
                                 /\ exists outputPath,
                                      args !! "outputPath" = Some (VStr outputPath)
                                      /\ p = potential_targets_path outputPath db CTA_id
                             | Makedirs p =>
                                 exists outputPath,
                                   args !! "outputPath" = Some (VStr outputPath)
                                   /\ p = join outputPath "potential_targets/"
                             | _ => True
                             end)) as Hall.
  assert (Hpass : forall db exist e,
             e ∈ (pass_by_value args cta CTA_id exist db).1 ->
             match e with
             | Call_rankTargets a found p =>
                 a = args /\ (0 < len found)%nat
                 /\ exists outputPath,
                      args !! "outputPath" = Some (VStr outputPath)
                      /\ p = potential_targets_path outputPath db CTA_id
             | Makedirs p =>
                 exists outputPath,
                   args !! "outputPath" = Some (VStr outputPath)
                   /\ p = join outputPath "potential_targets/"
             | _ => True
             end).
  { intros db exist e He.
    pose proof (pass_by_value_calls gen_fps preprocess_Query_SMILES Query_conductSS read_csv
                  args cta CTA_id exist db e He) as Hc.
    destruct e; auto. }
  specialize (Hall Hpass names w H). split.
  - intros a found p Hin. destruct (Hall _ Hin) as (db & Hdb & Ha & Hpos & out & Hout & Hp).
    eauto 10.
  - intros p Hin. destruct (Hall _ Hin) as (db & _ & Hp). exact Hp.
Qed.

End LoopCalls.

(** ** Data frames: the columns a selection and a merge need *)









Section ReferenceOutcome.

Variable select_CTA_reference_dataset : Namespace -> DataFrame * string.
Variable gen_fps : Namespace -> DataFrame -> string -> outcome.

Local Abbreviation reference_table :=
  (PredictTargets.reference_table select_CTA_reference_dataset gen_fps).
Local Abbreviation reference_by_value :=
  (PredictTargets.reference_by_value select_CTA_reference_dataset gen_fps).




Lemma reference_by_value_rows args cta CTA_id :
  reference_by_value args = inr (cta, CTA_id) ->
  exists picked structures ri,
    getitem PredictTargets.reference_columns (select_CTA_reference_dataset args).1 = inr picked
    /\ columns structures = ["molregno"; "clean_smiles"]
    /\ index_of "molregno" (columns (result_value (gen_fps args structures "Reference")))
       = Some ri
    /\ forall r, r ∈ rows cta ->
         exists l f,
           l ∈ rows picked
           /\ f ∈ rows (result_value (gen_fps args structures "Reference"))
           /\ cell_at l 0 = cell_at f ri
           /\ r = l ++ remove_nth ri f.
Proof.
  unfold PredictTargets.reference_by_value.
  destruct (select_CTA_reference_dataset args) as [selected id]. simpl.
  destruct (getitem PredictTargets.reference_columns selected) as [e|picked] eqn:Hpick;
    [discriminate|].
  pose proof (getitem_spec _ _ _ Hpick) as [Hcols _].
  set (CTA := dropna (drop_duplicates picked)).
  destruct (getitem ["molregno"; "clean_smiles"] CTA) as [e|structures] eqn:Hs; [discriminate|].
  apply getitem_spec in Hs as [Hscols _].
  set (fps := result_value (gen_fps args structures "Reference")).
  destruct (merge CTA (drop_duplicates fps) "molregno") as [e|merged] eqn:Hm; [discriminate|].
  intros [= <- <-]. unfold merge in Hm.
  change (columns CTA) with (columns picked) in Hm. rewrite Hcols in Hm. simpl in Hm.
  destruct (index_of "molregno" (columns fps)) as [ri|] eqn:Hri; [|discriminate].
  injection Hm as <-.
  exists picked, structures, ri. split_and!; [done..|].
  intros r Hr. apply dropna_spec in Hr as [Hr _]. simpl in Hr.
  apply list_elem_of_bind in Hr as (l & Hr & Hl).
  apply list_elem_of_bind in Hr as (f & Hr & Hf).
  destruct (bool_decide_reflect (cell_at l 0 = cell_at f ri)) as [E|_];
    [|by apply elem_of_nil in Hr].
  apply list_elem_of_singleton in Hr.
  change (l ∈ rows (dropna (drop_duplicates picked))) in Hl.
  change (f ∈ rows (drop_duplicates fps)) in Hf.
  apply dropna_spec in Hl as [Hl _]. apply drop_duplicates_subset in Hl.
  apply drop_duplicates_subset in Hf.
  exists l, f. auto.
Qed.

(** X16.  Every row of the reference table that lines 91-97 return is a row
    of the four reference columns of the selected dataset, followed by the
    cells of a row that [gen_fps] returned for the same [molregno]: the
    table holds no pair that the selection lacks, and no compound without
    a row of fingerprints. *)
Theorem reference_rows_from_selection args w CTA CTA_id :
  (reference_table args w).2 = inr (CTA, CTA_id) ->
  exists cta picked structures ri,
    heap (reference_table args w).1 !! CTA = Some cta
    /\ getitem PredictTargets.reference_columns (select_CTA_reference_dataset args).1
       = inr picked
    /\ columns structures = ["molregno"; "clean_smiles"]
    /\ index_of "molregno" (columns (result_value (gen_fps args structures "Reference")))
       = Some ri
    /\ forall r, r ∈ rows cta ->
         exists l f,
           l ∈ rows picked
           /\ f ∈ rows (result_value (gen_fps args structures "Reference"))
           /\ cell_at l 0 = cell_at f ri
           /\ r = l ++ remove_nth ri f.
Proof.
  intros Hr. destruct w as [f h t].
  pose proof (wp_run _ _ _ (reference_refines select_CTA_reference_dataset gen_fps args f h t))
    as H.
  simpl in H. destruct (reference_by_value args) as [e|[cta id]] eqn:Hv.
  - rewrite H in Hr. discriminate.
  - destruct H as (l & Hl & Hheap). rewrite Hl in Hr. injection Hr as <- <-.
    destruct (reference_by_value_rows args cta id Hv) as (picked & structures & ri & H).
    exists cta, picked, structures, ri. split; [exact Hheap|exact H].
Qed.

End ReferenceOutcome.

(** ** What a step adds to the trace *)

Section Adds.

Context {A B : Type} (P : event -> Prop).

Lemma adds_ret (a : A) : adds P (ret a).
Proof. intros w. exists []. by rewrite app_nil_r. Qed.

Lemma adds_raise e : adds P (@raise A e).
Proof. intros w. exists []. by rewrite app_nil_r. Qed.



End Adds.



Lemma adds_getattr P ns a : adds P (getattr ns a).
Proof. unfold getattr. destruct (ns !! a); [apply adds_ret|apply adds_raise]. Qed.








Section Endings.

Variable assert_query_resource_files : gset string -> Namespace -> option (list string).
Variable select_CTA_reference_dataset : Namespace -> DataFrame * string.
Variable gen_fps : Namespace -> DataFrame -> string -> outcome.
Variable preprocess_Query_SMILES : Namespace -> DataFrame -> outcome.
Variable Query_conductSS : Namespace -> DataFrame -> DataFrame -> DataFrame.
Variable read_csv : string -> DataFrame.

Local Abbreviation reference_table :=
  (PredictTargets.reference_table select_CTA_reference_dataset gen_fps).
Local Abbreviation reference_by_value :=
  (PredictTargets.reference_by_value select_CTA_reference_dataset gen_fps).
Local Abbreviation pass_by_value :=
  (PredictTargets.pass_by_value gen_fps preprocess_Query_SMILES Query_conductSS read_csv).
Local Abbreviation loop :=
  (PredictTargets.loop gen_fps preprocess_Query_SMILES Query_conductSS read_csv).
Local Abbreviation predict_main :=
  (PredictTargets.main assert_query_resource_files select_CTA_reference_dataset gen_fps
     preprocess_Query_SMILES Query_conductSS read_csv).





End Endings.

(** ** predict_targets.py: how a run ends *)

Section RunEnds.

Variable assert_query_resource_files : gset string -> Namespace -> option (list string).
Variable select_CTA_reference_dataset : Namespace -> DataFrame * string.
Variable gen_fps : Namespace -> DataFrame -> string -> outcome.
Variable preprocess_Query_SMILES : Namespace -> DataFrame -> outcome.
Variable Query_conductSS : Namespace -> DataFrame -> DataFrame -> DataFrame.
Variable read_csv : string -> DataFrame.

Local Abbreviation reference_table :=
  (PredictTargets.reference_table select_CTA_reference_dataset gen_fps).
Local Abbreviation reference_by_value :=
  (PredictTargets.reference_by_value select_CTA_reference_dataset gen_fps).
Local Abbreviation loop :=
  (PredictTargets.loop gen_fps preprocess_Query_SMILES Query_conductSS read_csv).
Local Abbreviation predict_main :=
  (PredictTargets.main assert_query_resource_files select_CTA_reference_dataset gen_fps
     preprocess_Query_SMILES Query_conductSS read_csv).




End RunEnds.

(** ** The further properties on the small run *)

Lemma parsed_scheme_options_witness :
  scheme_options (Example.parsed (GenerateCTA.parse_args Example.maccs_512)).
Proof.
  exact (parsed_scheme_options Example.maccs_512 _ (or_introl (proj1 example_generate_maccs))).
Defined.

Lemma example_predict_k :
  let ns := Example.parsed (PredictTargets.parse_args Example.k_1_3_5) in
  PredictTargets.parse_args Example.k_1_3_5 = inr ns
  /\ PredictTargets.parse_args [] = inr Example.args.
Proof. split; vm_compute; reflexivity. Qed.

Lemma top_k_int_or_list_witness :
  Example.args !! "top_k" = Some (VInt 1)
  /\ top_k_list (Example.parsed (PredictTargets.parse_args Example.k_1_3_5)).
Proof.
  destruct example_predict_k as [Hk H0]. split.
  - apply (proj1 (top_k_int_or_list [] _ H0)). intros ws H. by apply elem_of_nil in H.
  - apply (proj2 (top_k_int_or_list Example.k_1_3_5 _ Hk)
             [Word "1" (DInt 1); Word "3" (DInt 3); Word "5" (DInt 5)]).
    apply list_elem_of_here.
Defined.








Lemma example_nBits_512 :
  let g := Example.parsed (GenerateCTA.parse_args Example.nBits_512) in
  let p := Example.parsed (PredictTargets.parse_args Example.nBits_512) in
  GenerateCTA.parse_args Example.nBits_512 = inr g
  /\ PredictTargets.parse_args Example.nBits_512 = inr p
  /\ p !! "nBits" = Some (VInt 512) /\ p !! "radius" = Some (VInt 3).
Proof. repeat split; vm_compute; reflexivity. Qed.

Lemma default_schemes_differ_witness :
  (exists after dir,
      Call_createCTA after dir ∈ trace (GenerateCTA.main Example.nBits_512 (initial ∅)).1
      /\ after !! "nBits" = Some (VInt 116) /\ after !! "radius" = Some VNone)
  /\ (exists after,
      Call_select_CTA_reference_dataset after
        ∈ trace (Example.main Example.nBits_512 (initial ∅)).1
      /\ after !! "nBits" = Some (VInt 512) /\ after !! "radius" = Some (VInt 3)).
Proof.
  destruct example_nBits_512 as (Hg & Hp & Hbits & Hradius).
  destruct (default_schemes_differ Example.assert_query_resource_files
              Example.select_CTA_reference_dataset Example.gen_fps
              Example.preprocess_Query_SMILES Example.Query_conductSS Example.read_csv
              Example.nBits_512 ∅) as [Hgenerate Hpredict].
  { intros ws H. repeat (apply elem_of_cons in H as [H|H]; [discriminate|]).
    by apply elem_of_nil in H. }
  split.
  - destruct (Hgenerate _ Hg) as (after & dir & Hin & _ & Hb & Hr). eauto.
  - destruct (Hpredict _ Hp) as (after & Hin & _ & Hb & Hr).
    { intros present. eexists. reflexivity. }
    exists after. rewrite Hb, Hr. auto.
Defined.



Lemma lists_read_in_order_witness :
  let w := Example.ready Example.two_of_three in
  let r := Example.loop Example.args 0 "7" ["QueryList1"; "QueryList2"; "QueryList3"] w in
  files_read (new_events w r.1)
    `prefix_of` (smiles_file "input" <$> ["QueryList1"; "QueryList2"; "QueryList3"]).
Proof.
  exact (proj1 (lists_read_in_order Example.gen_fps Example.preprocess_Query_SMILES
                  Example.Query_conductSS Example.read_csv Example.args 0 "7"
                  ["QueryList1"; "QueryList2"; "QueryList3"]
                  (Example.ready Example.two_of_three) Example.CTA "input"
                  example_args_inputPath (example_ready_CTA Example.two_of_three))).
Defined.

Lemma example_empty_search :
  let w := Example.ready {[ "input/Empty_smiles.csv" ]} in
  Call_Query_conductSS Example.args Example.no_query Example.reference
    ∈ new_events w (Example.loop Example.args 0 "7" ["Empty"] w).1.
Proof. vm_compute. find_event. Qed.

Lemma every_search_uses_the_reference_witness :
  columns Example.no_query = ["np_id"; "fp"]
  /\ getitem PredictTargets.search_columns Example.CTA = inr Example.reference
  /\ columns Example.reference = PredictTargets.search_columns.
Proof.
  exact (proj2 (every_search_uses_the_reference Example.gen_fps Example.preprocess_Query_SMILES
                  Example.Query_conductSS Example.read_csv Example.args 0 "7" ["Empty"]
                  (Example.ready {[ "input/Empty_smiles.csv" ]}) Example.CTA
                  Example.args Example.no_query Example.reference
                  (example_ready_CTA _) example_empty_search)).
Defined.

Lemma rankings_go_to_potential_targets_witness :
  let w := Example.ready Example.two_of_three in
  let added :=
    new_events w (Example.loop Example.args 0 "7" ["QueryList1"; "QueryList2"] w).1 in
  heap w !! 0%nat = Some Example.CTA
  /\ forall a found p, Call_rankTargets a found p ∈ added ->
       a = Example.args /\ (0 < len found)%nat
       /\ exists db_name outputPath,
            db_name ∈ ["QueryList1"; "QueryList2"]
            /\ Example.args !! "outputPath" = Some (VStr outputPath)
            /\ p = potential_targets_path outputPath db_name "7".
Proof.
  split; [apply example_ready_CTA|].
  exact (proj1 (rankings_go_to_potential_targets Example.gen_fps
                  Example.preprocess_Query_SMILES Example.Query_conductSS Example.read_csv
                  Example.args 0 "7" ["QueryList1"; "QueryList2"]
                  (Example.ready Example.two_of_three) Example.CTA
                  (example_ready_CTA Example.two_of_three))).
Defined.



Lemma reference_rows_from_selection_witness :
  exists cta picked structures ri,
    heap (Example.reference_table Example.args (initial ∅)).1 !! 6%nat = Some cta
    /\ getitem PredictTargets.reference_columns
         (Example.select_CTA_reference_dataset Example.args).1
       = inr picked
    /\ columns structures = ["molregno"; "clean_smiles"]
    /\ index_of "molregno"
         (columns (result_value (Example.gen_fps Example.args structures "Reference")))
       = Some ri
    /\ forall r, r ∈ rows cta ->
         exists l f,
           l ∈ rows picked
           /\ f ∈ rows (result_value (Example.gen_fps Example.args structures "Reference"))
           /\ cell_at l 0 = cell_at f ri
           /\ r = l ++ remove_nth ri f.
Proof.
  apply (reference_rows_from_selection Example.select_CTA_reference_dataset Example.gen_fps
           Example.args (initial ∅) 6%nat "7").
  vm_compute. reflexivity.
Defined.


